(** * InkwellKeeper: catalog conversion and migration map

    A shallow embedding of [download_lorcanajson.py]: the conversion of a
    raw upstream card into the app's card format
    ([convert_card_to_app_format]), the index of the previous snapshot
    ([load_existing_cards]), the cascade that matches new cards to old ones
    ([build_migration_map]) and the pure part of the driver
    ([download_and_convert]): grouping by set, deduplication, ordering, the
    migration map and the summary figures.

    Strings are [string] (sequences of 8-bit characters); the Python
    built-ins below are modelled for ASCII text, on which byte order and
    code-point order coincide.  Python dicts are [gmap]s, the [seen_ids]
    set is a [gset]. *)

From Stdlib Require Import ZArith Ascii.
From stdpp Require Import gmap strings pretty list sorting.

Local Open Scope Z_scope.
#[local] Set Warnings "-clear-no-such-hyp".

(** ** Python built-ins used by the script *)

Module Py.

(** Truthiness of the values the script tests with [if x] / [x or y]. *)
Definition truthy_str (s : string) : bool :=
  match s with "" => false | _ => true end.

Definition truthy_int (n : Z) : bool := negb (n =? 0).

Definition truthy_opt_str (o : option string) : bool :=
  match o with Some s => truthy_str s | None => false end.

Definition truthy_opt_int (o : option Z) : bool :=
  match o with Some n => truthy_int n | None => false end.

(** [x or d] on an optional integer. *)
Definition int_or (o : option Z) (d : Z) : Z :=
  match o with Some n => if truthy_int n then n else d | None => d end.

(** [s.replace(a, r)] for a one-character pattern [a]. *)
Fixpoint replace (a : ascii) (r : string) (s : string) : string :=
  match s with
  | "" => ""
  | String c s' =>
      if decide (c = a) then r +:+ replace a r s'
      else String c (replace a r s')
  end.

Definition is_upper (c : ascii) : bool :=
  let n := nat_of_ascii c in (65 <=? n)%nat && (n <=? 90)%nat.
Definition is_lower (c : ascii) : bool :=
  let n := nat_of_ascii c in (97 <=? n)%nat && (n <=? 122)%nat.

Definition lower_char (c : ascii) : ascii :=
  if is_upper c then ascii_of_nat (nat_of_ascii c + 32) else c.
Definition upper_char (c : ascii) : ascii :=
  if is_lower c then ascii_of_nat (nat_of_ascii c - 32) else c.

(** [s.lower()] *)
Fixpoint lower (s : string) : string :=
  match s with
  | "" => ""
  | String c s' => String (lower_char c) (lower s')
  end.

(** [s.title()]: a letter that follows a letter is lowered, any other
    letter is raised. *)
Fixpoint title_go (prev_cased : bool) (s : string) : string :=
  match s with
  | "" => ""
  | String c s' =>
      if is_upper c || is_lower c
      then String (if prev_cased then lower_char c else upper_char c)
                  (title_go true s')
      else String c (title_go false s')
  end.
Definition title (s : string) : string := title_go false s.

(** [sub in s] *)
Fixpoint contains (sub s : string) : bool :=
  String.prefix sub s ||
  match s with
  | "" => false
  | String _ s' => contains sub s'
  end.

(** [s.startswith(p)] *)
Definition startswith (s p : string) : bool := String.prefix p s.

(** [sep.join(l)] *)
Fixpoint join (sep : string) (l : list string) : string :=
  match l with
  | [] => ""
  | [x] => x
  | x :: l' => x +:+ sep +:+ join sep l'
  end.

(** [str(n)] is stdpp's [pretty] on [Z]: a minus sign for negatives and
    no leading zeros. *)
Definition str (n : Z) : string := pretty n.

Fixpoint zeros (k : nat) : string :=
  match k with O => "" | S k' => String "0" (zeros k') end.

(** [f"{n:03d}"]: zero padded to width three, the sign counted in the
    width and written before the padding. *)
Definition format_03d (n : Z) : string :=
  let sign := if n <? 0 then "-" else "" in
  let digits := str (Z.abs n) in
  sign +:+ zeros (3 - String.length sign - String.length digits) +:+ digits.

(** Whitespace that [int] strips at both ends of ASCII text: tab, newline,
    vertical tab, form feed, carriage return and space. *)
Definition is_space (c : ascii) : bool :=
  let n := nat_of_ascii c in
  ((9 <=? n)%nat && (n <=? 13)%nat) || (n =? 32)%nat.

Fixpoint lstrip (s : string) : string :=
  match s with
  | "" => ""
  | String c s' => if is_space c then lstrip s' else s
  end.
Definition strip (s : string) : string :=
  String.rev (lstrip (String.rev (lstrip s))).

Definition digit (c : ascii) : option Z :=
  Z.of_nat <$> Ascii.is_nat c.

(** The digits of a decimal literal; single underscores may separate
    digits.  [need] tells that the next character has to be a digit. *)
Fixpoint digits_go (acc : Z) (need : bool) (s : string) : option Z :=
  match s with
  | "" => if need then None else Some acc
  | String c s' =>
      match digit c with
      | Some d => digits_go (10 * acc + d) false s'
      | None =>
          if decide (c = "_"%char) then
            if need then None else digits_go acc true s'
          else None
      end
  end.

(** [int(s)] on text, [None] standing for [ValueError]: surrounding
    whitespace, an optional sign, decimal digits.  (The interpreter's
    configurable cap on the number of digits is not modelled.) *)
Definition int (s : string) : option Z :=
  match strip s with
  | String "-" s' => Z.opp <$> digits_go 0 true s'
  | String "+" s' => digits_go 0 true s'
  | s' => digits_go 0 true s'
  end.

End Py.

(** ** Data model *)

(** The [set] object nested in a raw card. *)
Record RawSet := {
  rs_name : string;   (* set.get("name", "") *)
  rs_code : string;   (* set.get("code", "") *)
}.

(** The [image_uris] object; an empty string stands for a missing or empty
    entry (both are falsy in the [or] chains that read them). *)
Record ImageUris := {
  digital_large : string;
  digital_normal : string;
  digital_small : string;
  flat_large : string;
  flat_normal : string;
  flat_small : string;
}.

(** A raw upstream card: the fields [convert_card_to_app_format] reads, a
    missing key being the default the script passes to [get].  Every field
    holds a value the conversion goes through; a fetched record, where a
    name, a set or a rarity may be [null], is a [JsonCard] below, and
    [read_card] tells whether the conversion goes through or raises. *)
Record RawCard := {
  r_name : string;
  r_version : string;
  r_set : RawSet;
  r_collector_number : string;
  r_rarity : option string;
  r_text : string;
  r_flavor_text : string;
  r_image_uris : ImageUris;
  r_type : list string;
  r_ink : string;
  r_cost : option Z;
  r_inkwell : bool;
  r_strength : option Z;
  r_willpower : option Z;
  r_lore : option Z;
}.

(** A card in app format, the dict built at the end of
    [convert_card_to_app_format] and stored in the per-set JSON files.  For
    a card read back from a file, [c_name], [c_setName], [c_uniqueId] and
    [c_cardNumber] are what [load_existing_cards] reads (new key or legacy
    key), and an empty [c_id] stands for a missing id. *)
Record Card := {
  c_id : string;
  c_name : string;
  c_cost : option Z;
  c_type : string;
  c_rarity : string;
  c_setName : string;
  c_cardText : string;
  c_imageUrl : string;
  c_variant : string;
  c_cardNumber : option Z;
  c_uniqueId : option string;
  c_inkwell : bool;
  c_strength : option Z;
  c_willpower : option Z;
  c_lore : option Z;
  c_franchise : string;
  c_inkColor : string;
}.

Global Instance RawSet_eq_dec : EqDecision RawSet.
Proof. solve_decision. Defined.
Global Instance ImageUris_eq_dec : EqDecision ImageUris.
Proof. solve_decision. Defined.
Global Instance RawCard_eq_dec : EqDecision RawCard.
Proof. solve_decision. Defined.
Global Instance Card_eq_dec : EqDecision Card.
Proof. solve_decision. Defined.

(** ** Configuration tables *)

Definition SET_CODE_MAP : gmap string string :=
  list_to_map [
    ("The First Chapter", "TFC");
    ("Rise of the Floodborn", "ROF");
    ("Into the Inklands", "ITI");
    ("Ursula's Return", "TUR");
    ("Shimmering Skies", "SSK");
    ("Azurite Sea", "AZS");
    ("Fabled", "FAB");
    ("Archazia's Island", "ARI");
    ("Reign of Jafar", "ROJ");
    ("Whispers in the Well", "WIW");
    ("Promo Set 1", "P1");
    ("Promo Set 2", "P2");
    ("Challenge Promo", "CP");
    ("D23 Collection", "D23")
  ].

Definition VARIANT_MAP : gmap string string :=
  list_to_map [
    ("normal", "Normal");
    ("foil", "Foil");
    ("enchanted", "Enchanted");
    ("promo", "Promo");
    ("borderless", "Borderless");
    ("epic", "Epic");
    ("iconic", "Iconic")
  ].

(** ** convert_card_to_app_format *)

(** The variant keyword chosen from the rarity and the set name. *)
Definition variant_raw_of (set_name : string) (rarity_raw : string) : string :=
  if Py.contains "enchanted" rarity_raw then "enchanted"
  else if Py.contains "epic" rarity_raw then "epic"
  else if Py.contains "iconic" rarity_raw then "iconic"
  else if Py.contains "promo" (Py.lower set_name) || Py.contains "promo" rarity_raw
       then "promo"
  else "normal".

(** The collector number: [None] for empty or non-numeric text. *)
Definition parse_card_num (collector_number : string) : option Z :=
  if Py.truthy_str collector_number then Py.int collector_number else None.

(** [unique_id]: built only when [card_num] and [set_code] are truthy. *)
Definition make_unique_id (set_code : string) (card_num : option Z) : option string :=
  match card_num with
  | Some n =>
      if Py.truthy_int n && Py.truthy_str set_code
      then Some (set_code +:+ "-" +:+ Py.format_03d n)
      else None
  | None => None
  end.

Definition make_full_name (card_name version : string) : string :=
  if Py.truthy_str version then card_name +:+ " - " +:+ version else card_name.

(** [name_part] of the card id. *)
Definition name_part_of (full_name : string) : string :=
  Py.replace "'" "" (Py.replace "-" "_" (Py.replace " " "_" full_name)).

Definition variant_suffix (variant : string) : string :=
  if decide (variant = "Normal") then "" else "_" +:+ variant.

(** [card_id] *)
Definition make_card_id (set_name : string) (card_num : option Z)
    (full_name variant : string) : string :=
  (Py.replace " " "_" set_name +:+ "_" +:+ Py.str (Py.int_or card_num 0)
     +:+ "_" +:+ name_part_of full_name) +:+ variant_suffix variant.

Definition make_card_text (card_text flavor_text : string) : string :=
  if Py.truthy_str flavor_text then
    if Py.truthy_str card_text
    then card_text +:+ String "010" (String "010" flavor_text)
    else flavor_text
  else card_text.

(** [a or b] on strings. *)
Definition str_or (a b : string) : string := if Py.truthy_str a then a else b.

Definition resolve_image_url (u : ImageUris) (unique_id : option string)
    (variant variant_raw : string) : string :=
  let image_url :=
    str_or (digital_large u) (str_or (digital_normal u) (digital_small u)) in
  let image_url :=
    if Py.truthy_str image_url then image_url
    else str_or (flat_large u) (str_or (flat_normal u) (flat_small u)) in
  if Py.truthy_str image_url then image_url
  else match unique_id with
       | Some uid =>
           if Py.truthy_str uid then
             let suffix := if decide (variant = "Normal") then ""
                           else "-" +:+ variant_raw in
             "local://" +:+ uid +:+ suffix
           else ""
       | None => ""
       end.

Definition convert_card_to_app_format (card : RawCard) : Card :=
  let set_name := rs_name (r_set card) in
  let set_code_raw := rs_code (r_set card) in
  let set_code := default set_code_raw (SET_CODE_MAP !! set_name) in
  let rarity_raw := Py.lower (default "" (r_rarity card)) in
  let variant_raw := variant_raw_of set_name rarity_raw in
  let variant := default "Normal" (VARIANT_MAP !! variant_raw) in
  let card_num := parse_card_num (r_collector_number card) in
  let unique_id := make_unique_id set_code card_num in
  let full_name := make_full_name (r_name card) (r_version card) in
  let card_id := make_card_id set_name card_num full_name variant in
  {| c_id := card_id;
     c_name := full_name;
     c_cost := r_cost card;
     c_type := Py.join " - " (r_type card);
     c_rarity := Py.title (Py.replace "_" " " (default "Common" (r_rarity card)));
     c_setName := set_name;
     c_cardText := make_card_text (r_text card) (r_flavor_text card);
     c_imageUrl := resolve_image_url (r_image_uris card) unique_id variant variant_raw;
     c_variant := variant;
     c_cardNumber := card_num;
     c_uniqueId := unique_id;
     c_inkwell := r_inkwell card;
     c_strength := r_strength card;
     c_willpower := r_willpower card;
     c_lore := r_lore card;
     c_franchise := "";
     c_inkColor := r_ink card |}.

(** ** load_existing_cards *)

Definition uid_key (unique_id : string) : string := "uid:" +:+ unique_id.
Definition name_key (card_name set_name : string) : string :=
  "name:" +:+ card_name +:+ "|set:" +:+ set_name.
Definition num_key (card_num : Z) (set_name : string) : string :=
  "num:" +:+ Py.str card_num +:+ "|set:" +:+ set_name.

(** The body of the inner loop: one old card stored under up to three
    keys; a card without a name is passed over. *)
Definition index_card (existing : gmap string Card) (card : Card)
    : gmap string Card :=
  let card_name := c_name card in
  let set_name := c_setName card in
  let unique_id := default "" (c_uniqueId card) in
  let card_num := c_cardNumber card in
  if negb (Py.truthy_str card_name) then existing
  else
    let existing :=
      if Py.truthy_str unique_id
      then <[uid_key unique_id := card]> existing else existing in
    let existing :=
      if Py.truthy_str card_name && Py.truthy_str set_name
      then <[name_key card_name set_name := card]> existing else existing in
    match card_num with
    | Some n =>
        if Py.truthy_int n && Py.truthy_str set_name
        then <[num_key n set_name := card]> existing else existing
    | None => existing
    end.

(** [files] are the [cards] arrays of the JSON files of the data
    directory, in the order the directory lists them. *)
Definition load_existing_cards (files : list (list Card)) : gmap string Card :=
  foldl (foldl index_card) ∅ files.

(** ** build_migration_map *)

Record MigrationEntry := {
  m_old_id : string;
  m_new_id : string;
  m_new_unique_id : option string;
  m_name : string;
  m_set : string;
  m_variant : string;
  m_match_method : string;
}.

Global Instance MigrationEntry_eq_dec : EqDecision MigrationEntry.
Proof. solve_decision. Defined.

(** The three strategies act on the pair of local variables
    [(old_card, old_id)]; [old_id] is [old_card.get("id")], an absent id
    being the empty string. *)
Definition strategy_unique_id (old_cards : gmap string Card) (new_card : Card)
    (st : option Card * option string) : option Card * option string :=
  match c_uniqueId new_card with
  | Some new_unique_id =>
      if Py.truthy_str new_unique_id then
        match old_cards !! uid_key new_unique_id with
        | Some old_card => (Some old_card, Some (c_id old_card))
        | None => (None, st.2)
        end
      else st
  | None => st
  end.

Definition strategy_name_set (old_cards : gmap string Card) (new_card : Card)
    (st : option Card * option string) : option Card * option string :=
  match st.1 with
  | Some _ => st
  | None =>
      match old_cards !! name_key (c_name new_card) (c_setName new_card) with
      | Some old_card => (Some old_card, Some (c_id old_card))
      | None => (None, st.2)
      end
  end.

Definition strategy_number_set (old_cards : gmap string Card) (new_card : Card)
    (st : option Card * option string) : option Card * option string :=
  match st.1, c_cardNumber new_card with
  | None, Some new_num =>
      if Py.truthy_int new_num then
        match old_cards !! num_key new_num (c_setName new_card) with
        | Some old_card => (Some old_card, Some (c_id old_card))
        | None => (None, st.2)
        end
      else st
  | _, _ => st
  end.

Definition find_old (old_cards : gmap string Card) (new_card : Card)
    : option Card * option string :=
  strategy_number_set old_cards new_card
    (strategy_name_set old_cards new_card
       (strategy_unique_id old_cards new_card (None, None))).

(** The conditional expression that fills [match_method]. *)
Definition match_method_of (old_cards : gmap string Card) (new_card : Card)
    : string :=
  match c_uniqueId new_card with
  | Some new_unique_id =>
      if Py.truthy_str new_unique_id
         && bool_decide (is_Some (old_cards !! uid_key new_unique_id))
      then "uniqueId" else "name+set"
  | None => "name+set"
  end.

Definition make_entry (old_cards : gmap string Card) (new_card : Card)
    (old_id : string) : MigrationEntry :=
  {| m_old_id := old_id;
     m_new_id := c_id new_card;
     m_new_unique_id := c_uniqueId new_card;
     m_name := c_name new_card;
     m_set := c_setName new_card;
     m_variant := c_variant new_card;
     m_match_method := match_method_of old_cards new_card |}.

(** The body of the loop over the new cards. *)
Definition migrate_card (old_cards : gmap string Card)
    (migration_map : gmap string MigrationEntry) (new_card : Card)
    : gmap string MigrationEntry :=
  match (find_old old_cards new_card).2 with
  | Some old_id =>
      if Py.truthy_str old_id
      then <[old_id := make_entry old_cards new_card old_id]> migration_map
      else migration_map
  | None => migration_map
  end.

Definition build_migration_map (old_cards : gmap string Card)
    (new_cards : list Card) : gmap string MigrationEntry :=
  foldl (migrate_card old_cards) ∅ new_cards.

(** ** download_and_convert *)

(** Step 3, the body of the loop that groups the converted cards by set:
    a card whose set name is empty is skipped with a warning. *)
Definition group_card (st : gmap string (list Card) * gmap string nat)
    (card : RawCard) : gmap string (list Card) * gmap string nat :=
  let '(cards_by_set, set_counts) := st in
  let app_card := convert_card_to_app_format card in
  let set_name := c_setName app_card in
  if negb (Py.truthy_str set_name) then st
  else
    (<[set_name := default [] (cards_by_set !! set_name) ++ [app_card]]> cards_by_set,
     <[set_name := S (default O (set_counts !! set_name))]> set_counts).

Definition group_cards (all_cards_data : list RawCard)
    : gmap string (list Card) * gmap string nat :=
  foldl group_card (∅, ∅) all_cards_data.

(** Step 4, deduplication by id with the [seen_ids] set. *)
Definition dedup_card (st : gset string * list Card) (card : Card)
    : gset string * list Card :=
  let '(seen_ids, unique_cards) := st in
  if decide (c_id card ∈ seen_ids) then st
  else ({[c_id card]} ∪ seen_ids, unique_cards ++ [card]).

Definition dedup (cards : list Card) : list Card :=
  (foldl dedup_card (∅, []) cards).2.

(** The sort key [(c.get("cardNumber") or 0, c.get("variant", ""))] and the
    order of Python tuples on it. *)
Definition sort_key (c : Card) : Z * string :=
  (Py.int_or (c_cardNumber c) 0, c_variant c).

Definition key_le (k1 k2 : Z * string) : Prop :=
  k1.1 < k2.1 ∨ (k1.1 = k2.1 ∧ String.le k1.2 k2.2).

Global Instance key_le_dec : RelDecision key_le.
Proof. intros k1 k2. unfold key_le. apply _. Defined.

Definition card_le (c1 c2 : Card) : Prop := key_le (sort_key c1) (sort_key c2).

Global Instance card_le_dec : RelDecision card_le.
Proof. intros c1 c2. unfold card_le. apply _. Defined.

(** [list.sort] is stable: an element is placed before the first element
    that is not smaller than it. *)
Fixpoint insert_card (c : Card) (l : list Card) : list Card :=
  match l with
  | [] => [c]
  | d :: l' => if decide (card_le c d) then c :: l else d :: insert_card c l'
  end.

Definition sort_cards (cards : list Card) : list Card :=
  foldr insert_card [] cards.

Record SetData := {
  sd_setName : string;
  sd_setCode : string;
  sd_cardCount : nat;
  sd_cards : list Card;
}.

Definition set_filename (set_name : string) : string :=
  Py.replace "'" "" (Py.replace " " "_" (Py.lower set_name)) +:+ ".json".

(** The body of the loop of step 4: the file name and the object written
    for one set. *)
Definition write_set (set_name : string) (cards : list Card) : string * SetData :=
  let set_code := default "UNK" (SET_CODE_MAP !! set_name) in
  let unique_cards := sort_cards (dedup cards) in
  (set_filename set_name,
   {| sd_setName := set_name;
      sd_setCode := set_code;
      sd_cardCount := length unique_cards;
      sd_cards := unique_cards |}).

(** [sorted(cards_by_set.items())]: the keys of a dict are distinct, so the
    pairs are ordered by their set names. *)
Definition sorted_items (cards_by_set : gmap string (list Card))
    : list (string * list Card) :=
  (λ set_name, (set_name, default [] (cards_by_set !! set_name)))
    <$> merge_sort String.le (elements (dom cards_by_set)).

Definition set_files (cards_by_set : gmap string (list Card))
    : list (string * SetData) :=
  (λ item, write_set item.1 item.2) <$> sorted_items cards_by_set.

Definition all_new_cards_of (written : list (string * SetData)) : list Card :=
  written ≫= (λ f, sd_cards f.2).

(** Step 6, the figures of the summary. *)
Record Summary := {
  total_cards : nat;
  sets_created : nat;
  migration_mappings : nat;
  variant_counts : gmap string nat;
  missing_images : nat;
}.

Definition count_variant (variant_counts : gmap string nat) (card : Card)
    : gmap string nat :=
  let variant := c_variant card in
  <[variant := (default 0 (variant_counts !! variant) + 1)%nat]> variant_counts.

Definition needs_local_image (c : Card) : bool :=
  negb (Py.truthy_str (c_imageUrl c)) || Py.startswith (c_imageUrl c) "local://".

Definition summarize (all_new_cards : list Card)
    (cards_by_set : gmap string (list Card))
    (migration_map : gmap string MigrationEntry) : Summary :=
  {| total_cards := length all_new_cards;
     sets_created := size cards_by_set;
     migration_mappings := size migration_map;
     variant_counts := foldl count_variant ∅ all_new_cards;
     missing_images := length (filter (λ c, needs_local_image c = true) all_new_cards) |}.

(** What a run produces: the pre-deduplication counts reported after
    grouping, the files written, the mappings of [migration_map.json] and
    the summary. *)
Record Run := {
  run_set_counts : gmap string nat;
  run_files : list (string * SetData);
  run_migration : gmap string MigrationEntry;
  run_summary : Summary;
}.

(** [existing_files] is the content of the data directory found by
    [load_existing_cards]; [all_cards_data] is what the fetch returned.
    An empty fetch ends the run before anything is written. *)
Definition download_and_convert (existing_files : list (list Card))
    (all_cards_data : list RawCard) : option Run :=
  let existing_cards := load_existing_cards existing_files in
  match all_cards_data with
  | [] => None
  | _ =>
      let '(cards_by_set, set_counts) := group_cards all_cards_data in
      let written := set_files cards_by_set in
      let all_new_cards := all_new_cards_of written in
      let migration_map := build_migration_map existing_cards all_new_cards in
      Some {| run_set_counts := set_counts;
              run_files := written;
              run_migration := migration_map;
              run_summary := summarize all_new_cards cards_by_set migration_map |}
  end.

(** ** Fetched records *)

(** A text field of a fetched record: the key is missing, holds [null], or
    holds a string. *)
Inductive JsonText := JAbsent | JNull | JText (s : string).

(** The [set] field: missing, [null], or an object with its [name] and
    [code]. *)
Inductive JsonSet := JSetAbsent | JSetNull | JSetObject (name code : JsonText).

(** A fetched record.  The fields on which the conversion calls a string
    or dict method ([name], [set], [set.name], [rarity]) and those it only
    tests for truth ([version], [collector_number], [set.code]) are kept as
    fetched; the others are read without any method call. *)
Record JsonCard := {
  j_name : JsonText;
  j_version : JsonText;
  j_set : JsonSet;
  j_collector_number : JsonText;
  j_rarity : JsonText;
  j_text : string;
  j_flavor_text : string;
  j_image_uris : ImageUris;
  j_type : list string;
  j_ink : string;
  j_cost : option Z;
  j_inkwell : bool;
  j_strength : option Z;
  j_willpower : option Z;
  j_lore : option Z;
}.

(** A field that is only tested for truth: [null] and a missing key act
    as the empty string. *)
Definition text_or_empty (t : JsonText) : string :=
  match t with JText s => s | JAbsent | JNull => "" end.

(** The set name the conversion reads when it does not raise. *)
Definition json_set_name (s : JsonSet) : string :=
  match s with
  | JSetObject (JText n) _ => n
  | _ => ""
  end.

(** [set_info = card.get("set", {})] then [set_info.get("name", "")] and
    [set_info.get("code", "")]: a [null] set raises at [set_info.get], a
    [null] name at [set_name.lower] or, at the latest, at
    [set_name.replace] when the id is built. *)
Definition read_set (s : JsonSet) : option RawSet :=
  match s with
  | JSetAbsent => Some {| rs_name := ""; rs_code := "" |}
  | JSetNull => None
  | JSetObject name code =>
      match name with
      | JNull => None
      | JAbsent => Some {| rs_name := ""; rs_code := text_or_empty code |}
      | JText n => Some {| rs_name := n; rs_code := text_or_empty code |}
      end
  end.

(** [card.get("rarity", "").lower()] raises on [null]. *)
Definition read_rarity (t : JsonText) : option (option string) :=
  match t with
  | JAbsent => Some None
  | JNull => None
  | JText s => Some (Some s)
  end.

(** [full_name]: with a version the name goes through an f-string, where
    [null] prints as [None]; without one, [full_name.replace] raises on
    [null]. *)
Definition read_name (name : JsonText) (version : string) : option string :=
  match name with
  | JText s => Some s
  | JAbsent => Some ""
  | JNull => if Py.truthy_str version then Some "None" else None
  end.

(** The record as [convert_card_to_app_format] reads it, or [None] when
    the conversion raises [AttributeError]. *)
Definition read_card (j : JsonCard) : option RawCard :=
  match read_set (j_set j), read_rarity (j_rarity j),
        read_name (j_name j) (text_or_empty (j_version j)) with
  | Some set_info, Some rarity, Some name =>
      Some {| r_name := name;
              r_version := text_or_empty (j_version j);
              r_set := set_info;
              r_collector_number := text_or_empty (j_collector_number j);
              r_rarity := rarity;
              r_text := j_text j;
              r_flavor_text := j_flavor_text j;
              r_image_uris := j_image_uris j;
              r_type := j_type j;
              r_ink := j_ink j;
              r_cost := j_cost j;
              r_inkwell := j_inkwell j;
              r_strength := j_strength j;
              r_willpower := j_willpower j;
              r_lore := j_lore j |}
  | _, _, _ => None
  end.

(** Step 3 on fetched records: nothing catches an exception of the
    conversion, so the first record on which it raises ends the loop and
    the run. *)
Definition group_json_card
    (st : option (gmap string (list Card) * gmap string nat)) (card : JsonCard)
    : option (gmap string (list Card) * gmap string nat) :=
  match st, read_card card with
  | Some st, Some raw => Some (group_card st raw)
  | _, _ => None
  end.

(** How a run ends: the fetch returned nothing, the conversion raised
    before any file was written, or all six steps were done. *)
Inductive Outcome :=
  | NothingFetched
  | Crashed
  | Completed (run : Run).

Definition download_and_convert_json (existing_files : list (list Card))
    (all_cards_data : list JsonCard) : Outcome :=
  let existing_cards := load_existing_cards existing_files in
  match all_cards_data with
  | [] => NothingFetched
  | _ =>
      match foldl group_json_card (Some (∅, ∅)) all_cards_data with
      | None => Crashed
      | Some (cards_by_set, set_counts) =>
          let written := set_files cards_by_set in
          let all_new_cards := all_new_cards_of written in
          let migration_map := build_migration_map existing_cards all_new_cards in
          Completed
            {| run_set_counts := set_counts;
               run_files := written;
               run_migration := migration_map;
               run_summary := summarize all_new_cards cards_by_set migration_map |}
      end
  end.

(** ** Definitions used to state the properties *)

(** The deduplication loop as a recursion on the remaining cards, [seen]
    being the ids met so far. *)
Fixpoint dedup_from (seen : gset string) (cards : list Card) : list Card :=
  match cards with
  | [] => []
  | c :: l =>
      if decide (c_id c ∈ seen) then dedup_from seen l
      else c :: dedup_from ({[c_id c]} ∪ seen) l
  end.

(** The tuple an entity id is meant to identify. *)
Definition card_tuple (c : Card) : string * string * option Z * string :=
  (c_name c, c_setName c, c_cardNumber c, c_variant c).

(** The order of the specification's sentence on the Writer: collector
    numbers ascending with an absent number above every present one, the
    variant name breaking ties. *)
Definition spec_number_lt (n1 n2 : option Z) : Prop :=
  match n1, n2 with
  | Some a, Some b => a < b
  | Some _, None => True
  | None, _ => False
  end.

Global Instance spec_number_lt_dec : RelDecision spec_number_lt.
Proof. intros [a|] [b|]; simpl; apply _. Defined.

Definition spec_card_le (c1 c2 : Card) : Prop :=
  spec_number_lt (c_cardNumber c1) (c_cardNumber c2)
  ∨ (c_cardNumber c1 = c_cardNumber c2 ∧ String.le (c_variant c1) (c_variant c2)).

Global Instance spec_card_le_dec : RelDecision spec_card_le.
Proof. intros c1 c2. unfold spec_card_le. apply _. Defined.

(** The number of cards the deduplication drops in a run: per set, the
    grouped cards that are not kept. *)
Definition duplicates_dropped (all_cards_data : list RawCard) : nat :=
  sum_list ((λ item, length item.2 - length (dedup item.2))%nat
              <$> sorted_items (group_cards all_cards_data).1).

(** The cards of a run's files, in the order they are written. *)
Definition new_cards_of_run (run : Run) : list Card :=
  all_new_cards_of (run_files run).

(** The cards of set [s] among the converted records, in input order. *)
Definition cards_of_set (s : string) (rs : list RawCard) : list Card :=
  filter (λ c, c_setName c = s) (convert_card_to_app_format <$> rs).

(** The three lookups of the cascade, each with the guard the script puts
    before it. *)
Definition uid_lookup (old_cards : gmap string Card) (new_card : Card)
    : option Card :=
  match c_uniqueId new_card with
  | Some u => if Py.truthy_str u then old_cards !! uid_key u else None
  | None => None
  end.

Definition name_lookup (old_cards : gmap string Card) (new_card : Card)
    : option Card :=
  old_cards !! name_key (c_name new_card) (c_setName new_card).

Definition num_lookup (old_cards : gmap string Card) (new_card : Card)
    : option Card :=
  match c_cardNumber new_card with
  | Some n =>
      if Py.truthy_int n then old_cards !! num_key n (c_setName new_card)
      else None
  | None => None
  end.

(** A card of an earlier catalog, as [load_existing_cards] reads it. *)
Definition old_card (id name set_name : string) (card_num : option Z)
    (unique_id : option string) : Card :=
  {| c_id := id; c_name := name; c_cost := None; c_type := "Character";
     c_rarity := "Rare"; c_setName := set_name; c_cardText := "";
     c_imageUrl := ""; c_variant := "Normal"; c_cardNumber := card_num;
     c_uniqueId := unique_id; c_inkwell := true; c_strength := None;
     c_willpower := None; c_lore := None; c_franchise := "";
     c_inkColor := "Sapphire" |}.

(** [a in s] for a single character. *)
Fixpoint has_char (a : ascii) (s : string) : bool :=
  match s with
  | "" => false
  | String c s' => bool_decide (c = a) || has_char a s'
  end.

(** The [cards] arrays that [load_existing_cards] finds in the data
    directory after a run into an empty directory: one per set file, and
    none in [migration_map.json], which has no [cards] entry. *)
Definition directory_after (run : Run) : list (list Card) :=
  ((λ f, sd_cards f.2) <$> run_files run) ++ [[]].

(** Sample raw cards. *)
Definition no_images : ImageUris :=
  {| digital_large := ""; digital_normal := ""; digital_small := "";
     flat_large := ""; flat_normal := ""; flat_small := "" |}.

Definition raw_card (name version set_name set_code collector_number : string)
    (rarity : string) : RawCard :=
  {| r_name := name; r_version := version;
     r_set := {| rs_name := set_name; rs_code := set_code |};
     r_collector_number := collector_number;
     r_rarity := Some rarity; r_text := ""; r_flavor_text := "";
     r_image_uris := no_images; r_type := ["Character"]; r_ink := "Sapphire";
     r_cost := Some 4; r_inkwell := true; r_strength := Some 2;
     r_willpower := Some 3; r_lore := Some 1 |}.

(** ** fetch_all_cards_from_api *)

Definition LORCANAJSON_API : string := "https://api.lorcast.com/v0".

Definition set_cards_url (set_code : string) : string :=
  LORCANAJSON_API +:+ "/cards/search?q=set:" +:+ set_code +:+ "&unique=prints".
Definition epic_url : string :=
  LORCANAJSON_API +:+ "/cards/search?q=rarity:epic".
Definition iconic_url : string :=
  LORCANAJSON_API +:+ "/cards/search?q=rarity:iconic".

(** The network is a state [Net] read by two operations that stand for
    [fetch_json] on the set listing and on a card search: the answer is
    [None] when [fetch_json] returns [None] or a falsy value, and
    [Some results] otherwise, [results] being the [results] array of the
    response (empty when the key is missing).  The pauses between requests
    are left out. *)
Section network.
Context {Net : Type}.
Variable fetch_sets : Net → option (list RawSet) * Net.
Variable fetch_cards : string → Net → option (list RawCard) * Net.

(** The body of the loop over the sets: a failed request adds nothing. *)
Definition fetch_set_cards (st : list RawCard * Net) (set_info : RawSet)
    : list RawCard * Net :=
  let '(all_cards, net) := st in
  let '(cards_data, net) := fetch_cards (set_cards_url (rs_code set_info)) net in
  match cards_data with
  | Some cards => (all_cards ++ cards, net)
  | None => (all_cards, net)
  end.

(** The two requests by rarity that follow the loop. *)
Definition fetch_rarity_cards (url : string) (st : list RawCard * Net)
    : list RawCard * Net :=
  let '(all_cards, net) := st in
  let '(data, net) := fetch_cards url net in
  match data with
  | Some cards => (all_cards ++ cards, net)
  | None => (all_cards, net)
  end.

Definition fetch_all_cards_from_api (net : Net) : option (list RawCard) * Net :=
  let '(sets_data, net) := fetch_sets net in
  match sets_data with
  | None => (None, net)
  | Some sets =>
      let st := foldl fetch_set_cards ([], net) sets in
      let st := fetch_rarity_cards epic_url st in
      let st := fetch_rarity_cards iconic_url st in
      (Some st.1, st.2)
  end.

(** [download_and_convert] with its fetch: nothing is written when the
    fetch fails or returns no card. *)
Definition fetch_and_convert (existing_files : list (list Card)) (net : Net)
    : option Run :=
  match (fetch_all_cards_from_api net).1 with
  | Some all_cards_data => download_and_convert existing_files all_cards_data
  | None => None
  end.
End network.

(** ** The data directory *)

(** [s.endswith(p)] *)
Definition endswith (s p : string) : bool :=
  String.prefix (String.rev p) (String.rev s).

(** The content of a directory entry as [load_existing_cards] meets it:
    [None] when opening or parsing the file raises (or the document has no
    [get]), otherwise the elements of its [cards] array (none when the key
    is missing), an element being [None] when it is not an object, so that
    reading it raises.  The exception handler encloses the whole file: the
    cards read before the exception stay in the index, the rest of the
    file is skipped. *)
Fixpoint index_elements (existing : gmap string Card)
    (elems : list (option Card)) : gmap string Card :=
  match elems with
  | [] => existing
  | Some card :: l => index_elements (index_card existing card) l
  | None :: _ => existing
  end.

(** The body of the loop over the directory listing. *)
Definition load_entry (existing : gmap string Card)
    (entry : string * option (list (option Card))) : gmap string Card :=
  if negb (endswith entry.1 ".json") then existing
  else match entry.2 with
       | Some elems => index_elements existing elems
       | None => existing
       end.

(** [load_existing_cards] on the directory itself: [None] when the
    directory does not exist, otherwise its entries in listing order. *)
Definition load_existing_cards_dir
    (dir : option (list (string * option (list (option Card)))))
    : gmap string Card :=
  match dir with
  | None => ∅
  | Some entries => foldl load_entry ∅ entries
  end.

(** The directory after step 4 and step 5 of a run: one file per set, each
    written over a file of the same name, then [migration_map.json], which
    has no [cards] array. *)
Definition written_directory (dir : gmap string (option (list (option Card))))
    (run : Run) : gmap string (option (list (option Card))) :=
  <["migration_map.json" := Some []]>
    (foldl (λ d f, <[f.1 := Some (Some <$> sd_cards f.2)]> d) dir (run_files run)).

(** ** Definitions used to state further properties *)

(** [k] is one of the keys under which [index_card] stores [c]. *)
Definition own_key (k : string) (c : Card) : Prop :=
  (∃ u, c_uniqueId c = Some u ∧ u ≠ "" ∧ k = uid_key u)
  ∨ (c_setName c ≠ "" ∧ k = name_key (c_name c) (c_setName c))
  ∨ (∃ n, c_cardNumber c = Some n ∧ n ≠ 0 ∧ c_setName c ≠ ""
          ∧ k = num_key n (c_setName c)).

(** Entry [e] under old id [k] was made for the new card [c]. *)
Definition entry_from (old : gmap string Card) (k : string)
    (e : MigrationEntry) (c : Card) : Prop :=
  ∃ o, (find_old old c).1 = Some o ∧ c_id o = k
       ∧ e = make_entry old c k.

(** All characters of [s] satisfy [P]. *)
Fixpoint all_chars (P : ascii → bool) (s : string) : bool :=
  match s with
  | "" => true
  | String c s' => P c && all_chars P s'
  end.

Definition is_digit_char (c : ascii) : bool :=
  match Py.digit c with Some _ => true | None => false end.

(** The cards of a file that are read before the first element that
    raises. *)
Fixpoint readable_prefix (elems : list (option Card)) : list Card :=
  match elems with
  | Some card :: l => card :: readable_prefix l
  | _ => []
  end.

Definition readable_cards (entry : string * option (list (option Card)))
    : list Card :=
  if endswith entry.1 ".json"
  then match entry.2 with Some elems => readable_prefix elems | None => [] end
  else [].

(** The directory entry of a written set file. *)
Definition file_entry (f : string * SetData)
    : string * option (list (option Card)) :=
  (f.1, Some (Some <$> sd_cards f.2)).

(** Sample snapshot, raw input and network. *)
Definition sample_old_a : Card :=
  old_card "TFC_1_Elsa_old" "Elsa - Ice Queen" "The First Chapter"
    (Some 1) (Some "TFC-001").
Definition sample_old_b : Card :=
  old_card "TFC_9_Elsa" "Elsa" "The First Chapter" (Some 9) (Some "TFC-009").
Definition sample_old_c : Card :=
  old_card "TFC_2_Anna_old" "Anna - Heir" "The First Chapter" (Some 2) None.
Definition sample_snapshot : list (list Card) :=
  [[sample_old_a; sample_old_b]; [sample_old_c]].

Definition sample_raw : list RawCard :=
  [raw_card "Elsa" "" "The First Chapter" "1" "001" "Rare";
   raw_card "Anna" "" "The First Chapter" "1" "2" "Enchanted";
   raw_card "Stitch" "" "Promo Set 1" "P1" "7" "Promo"].

Definition sample_epic : RawCard :=
  raw_card "Mulan" "" "Fabled" "9" "12" "Epic".

Definition sample_fetch_sets (net : nat) : option (list RawSet) * nat :=
  (Some [{| rs_name := "Fabled"; rs_code := "9" |}], S net).

Definition sample_fetch_cards (url : string) (net : nat)
    : option (list RawCard) * nat :=
  if decide (url = set_cards_url "9")
  then (Some [raw_card "Elsa" "" "Fabled" "9" "1" "Rare"; sample_epic], S net)
  else if decide (url = epic_url) then (Some [sample_epic], S net)
  else (None, S net).

(** The input without the records the deduplication drops: a record is
    left out when an earlier record of the same set has the same id.
    Records without a set name are left in place; the grouping skips
    them. *)
Fixpoint undropped_from (seen : gset (string * string)) (rs : list RawCard)
    : list RawCard :=
  match rs with
  | [] => []
  | r :: l =>
      let c := convert_card_to_app_format r in
      let key := (c_setName c, c_id c) in
      if decide (c_setName c ≠ "" ∧ key ∈ seen) then undropped_from seen l
      else r :: undropped_from ({[key]} ∪ seen) l
  end.

Definition undropped (rs : list RawCard) : list RawCard := undropped_from ∅ rs.

(** A fetched record with the other fields of [raw_card]. *)
Definition json_card (name version : JsonText) (set : JsonSet)
    (collector_number rarity : JsonText) : JsonCard :=
  {| j_name := name; j_version := version; j_set := set;
     j_collector_number := collector_number; j_rarity := rarity;
     j_text := ""; j_flavor_text := ""; j_image_uris := no_images;
     j_type := ["Character"]; j_ink := "Sapphire"; j_cost := Some 4;
     j_inkwell := true; j_strength := Some 2; j_willpower := Some 3;
     j_lore := Some 1 |}.


(** * Properties *)

Example int_001 : Py.int "001" = Some 1.
Proof. reflexivity. Qed.
Example int_pad : Py.int " -1_0 " = Some (-10).
Proof. reflexivity. Qed.
Example int_alpha : Py.int "12a" = None.
Proof. reflexivity. Qed.
Example int_us : Py.int "1__0" = None.
Proof. reflexivity. Qed.
Example int_separator : Py.int (String "028" "7") = None.
Proof. reflexivity. Qed.
Example format_5 : Py.format_03d 5 = "005".
Proof. reflexivity. Qed.
Example format_neg : Py.format_03d (-5) = "-05".
Proof. reflexivity. Qed.
Example format_big : Py.format_03d 1234 = "1234".
Proof. reflexivity. Qed.
Example replace_ex : Py.replace " " "_" "a b c" = "a_b_c".
Proof. reflexivity. Qed.
Example title_ex : Py.title "super rare" = "Super Rare".
Proof. reflexivity. Qed.
Example contains_ex : Py.contains "epic" "an epic card" = true.
Proof. reflexivity. Qed.
Example convert_ex :
  let c := convert_card_to_app_format
             (raw_card "Elsa" "Snow Queen" "The First Chapter" "1" "001" "Rare") in
  c_id c = "The_First_Chapter_1_Elsa___Snow_Queen"
  ∧ c_name c = "Elsa - Snow Queen"
  ∧ c_uniqueId c = Some "TFC-001"
  ∧ c_imageUrl c = "local://TFC-001"
  ∧ c_variant c = "Normal".
Proof. vm_compute. done. Qed.

(** ** Variants *)

Lemma variant_raw_of_cases set_name rarity_raw :
  variant_raw_of set_name rarity_raw ∈ ["enchanted"; "epic"; "iconic"; "promo"; "normal"].
Proof.
  unfold variant_raw_of.
  repeat case_match; rewrite !elem_of_cons; auto 10.
Qed.

Lemma variant_of_raw_cases v :
  v ∈ ["enchanted"; "epic"; "iconic"; "promo"; "normal"] →
  default "Normal" (VARIANT_MAP !! v) ∈ ["Enchanted"; "Epic"; "Iconic"; "Promo"; "Normal"].
Proof.
  rewrite !elem_of_cons, elem_of_nil.
  intros [->|[->|[->|[->|[->|[]]]]]]; vm_compute; auto 10.
Qed.

Lemma convert_variant_cases card :
  c_variant (convert_card_to_app_format card)
    ∈ ["Enchanted"; "Epic"; "Iconic"; "Promo"; "Normal"].
Proof. apply variant_of_raw_cases, variant_raw_of_cases. Qed.

(** C10: the variant of a converted card is one of Normal, Enchanted, Epic,
    Iconic and Promo; the table's Foil and Borderless tags are never
    produced. *)
Theorem variant_closed card :
  let v := c_variant (convert_card_to_app_format card) in
  v ∈ ["Normal"; "Enchanted"; "Epic"; "Iconic"; "Promo"]
  ∧ v ≠ "Foil" ∧ v ≠ "Borderless".
Proof.
  intros v. pose proof (convert_variant_cases card) as H. fold v in H.
  rewrite !elem_of_cons, elem_of_nil in *.
  destruct H as [->|[->|[->|[->|[->|[]]]]]]; (split; [auto 10|split; discriminate]).
Qed.

(** ** Deduplication and ordering *)

Section dedup.
Implicit Types (seen : gset string) (cards acc : list Card) (i : string).

Lemma foldl_dedup_card seen acc cards :
  (foldl dedup_card (seen, acc) cards).2 = acc ++ dedup_from seen cards.
Proof.
  revert seen acc. induction cards as [|c l IH]; intros seen acc; simpl.
  - by rewrite app_nil_r.
  - destruct (decide (c_id c ∈ seen)); [done|].
    rewrite IH. by rewrite <-app_assoc.
Qed.

Lemma dedup_unfold cards : dedup cards = dedup_from ∅ cards.
Proof. unfold dedup. by rewrite foldl_dedup_card. Qed.

Lemma dedup_from_filter seen cards i :
  filter (λ c, c_id c = i) (dedup_from seen cards)
  = if decide (i ∈ seen) then []
    else option_list (head (filter (λ c, c_id c = i) cards)).
Proof.
  revert seen. induction cards as [|c l IH]; intros seen; simpl.
  - by case_decide.
  - destruct (decide (c_id c ∈ seen)) as [Hin|Hnin].
    + rewrite IH. case_decide; [done|].
      rewrite filter_cons_False; [done|]. congruence.
    + destruct (decide (c_id c = i)) as [<-|Hne].
      * rewrite !filter_cons_True by done. rewrite IH.
        rewrite !decide_True by set_solver. by rewrite decide_False.
      * rewrite !filter_cons_False by done. rewrite IH.
        destruct (decide (i ∈ seen)).
        { rewrite decide_True; [done|set_solver]. }
        { rewrite decide_False; [done|set_solver]. }
Qed.

Lemma dedup_from_sublist seen cards : sublist (dedup_from seen cards) cards.
Proof.
  revert seen. induction cards as [|c l IH]; intros seen; simpl; [done|].
  case_decide; [apply sublist_cons|apply sublist_skip]; done.
Qed.

Lemma dedup_from_fresh seen cards c :
  c ∈ dedup_from seen cards → c_id c ∉ seen.
Proof.
  revert seen. induction cards as [|d l IH]; intros seen; simpl.
  - by intros ?%elem_of_nil.
  - case_decide; [by auto|].
    intros [->|Hin%IH]%elem_of_cons; [done|set_solver].
Qed.

Lemma dedup_from_NoDup seen cards : NoDup (c_id <$> dedup_from seen cards).
Proof.
  revert seen. induction cards as [|c l IH]; intros seen; simpl.
  - constructor.
  - case_decide; [done|]. rewrite fmap_cons. constructor; [|done].
    intros (d & Hid & Hd%dedup_from_fresh)%list_elem_of_fmap.
    set_solver.
Qed.

Lemma dedup_from_id seen l :
  NoDup (c_id <$> l) → (∀ c, c ∈ l → c_id c ∉ seen) → dedup_from seen l = l.
Proof.
  revert seen. induction l as [|c l IH]; intros seen; [done|].
  rewrite fmap_cons, NoDup_cons. intros [Hc Hl] Hseen. simpl.
  rewrite decide_False by (apply Hseen; by left). f_equal.
  apply IH; [done|]. intros d Hd [Heq%elem_of_singleton|?]%elem_of_union.
  - apply Hc. rewrite <-Heq. apply list_elem_of_fmap. eauto.
  - eapply Hseen; [by right|done].
Qed.
End dedup.

Section sorting.
Global Instance key_le_total : Total key_le.
Proof.
  intros [n1 v1] [n2 v2]. unfold key_le; simpl.
  destruct (Z.lt_trichotomy n1 n2) as [?|[->|?]]; [auto..| |auto].
  destruct (total String.le v1 v2); auto.
Qed.

Global Instance key_le_trans : Transitive key_le.
Proof.
  intros [n1 v1] [n2 v2] [n3 v3]. unfold key_le; simpl.
  intros [?|[-> ?]] [?|[-> ?]]; [left; lia|auto|auto|].
  right. split; [done|]. by etrans.
Qed.

Lemma card_le_total c d : card_le c d ∨ card_le d c.
Proof. apply key_le_total. Qed.

Lemma insert_card_Permutation c l : insert_card c l ≡ₚ c :: l.
Proof.
  induction l as [|d l IH]; simpl; [done|].
  case_decide; [done|]. rewrite IH. apply Permutation_swap.
Qed.

Lemma sort_cards_Permutation l : sort_cards l ≡ₚ l.
Proof.
  induction l as [|c l IH]; simpl; [done|].
  by rewrite insert_card_Permutation, IH.
Qed.

Lemma insert_card_HdRel a c l :
  card_le a c → HdRel card_le a l → HdRel card_le a (insert_card c l).
Proof.
  intros Hac Hal. destruct l as [|d l]; simpl; [by constructor|].
  case_decide; constructor; [done|]. by inversion Hal.
Qed.

Lemma insert_card_Sorted c l :
  Sorted card_le l → Sorted card_le (insert_card c l).
Proof.
  induction 1 as [|d l Hs IH Hd]; simpl; [by repeat constructor|].
  case_decide as Hcd.
  - constructor; [by constructor|by constructor].
  - constructor; [done|]. apply insert_card_HdRel; [|done].
    by destruct (card_le_total c d).
Qed.

Lemma sort_cards_Sorted l : Sorted card_le (sort_cards l).
Proof.
  induction l as [|c l IH]; simpl; [constructor|].
  by apply insert_card_Sorted.
Qed.
End sorting.


(** C8: deduplication keeps, for every id, exactly the first card of the
    input that carries it, in input order; a set's catalog holds at most one
    card per id. *)
Theorem dedup_first_wins (cards : list Card) :
  NoDup (c_id <$> dedup cards)
  ∧ sublist (dedup cards) cards
  ∧ (∀ i, filter (λ c, c_id c = i) (dedup cards)
          = option_list (head (filter (λ c, c_id c = i) cards)))
  ∧ (∀ set_name, NoDup (c_id <$> sd_cards (write_set set_name cards).2)).
Proof.
  rewrite dedup_unfold. split_and!.
  - apply dedup_from_NoDup.
  - apply dedup_from_sublist.
  - intros i. rewrite dedup_from_filter. by rewrite decide_False by set_solver.
  - intros set_name. simpl. rewrite sort_cards_Permutation, dedup_unfold.
    apply dedup_from_NoDup.
Qed.

Lemma int_or_0 (o : option Z) : Py.int_or o 0 = default 0 o.
Proof.
  destruct o as [n|]; simpl; [|done]. unfold Py.truthy_int.
  destruct (Z.eqb_spec n 0); simpl; congruence.
Qed.

(** C7, as the code has it: a set's catalog is the deduplicated cards
    ordered by collector number ascending, an absent number counting as
    zero, ties broken by variant name ascending. *)
Theorem catalog_order set_name (cards : list Card) :
  let out := sd_cards (write_set set_name cards).2 in
  out ≡ₚ dedup cards
  ∧ Sorted card_le out
  ∧ ∀ c1 c2, card_le c1 c2 ↔
      let n1 := default 0 (c_cardNumber c1) in
      let n2 := default 0 (c_cardNumber c2) in
      n1 < n2 ∨ (n1 = n2 ∧ String.le (c_variant c1) (c_variant c2)).
Proof.
  simpl. split_and!.
  - apply sort_cards_Permutation.
  - apply sort_cards_Sorted.
  - intros c1 c2. unfold card_le, key_le, sort_key; simpl.
    by rewrite !int_or_0.
Qed.

(** C7 as stated fails: a card without a collector number is written before
    the card numbered 5 of the same set. *)
Lemma catalog_order_absent_first :
  ∃ run,
    download_and_convert []
      [raw_card "Elsa" "" "The First Chapter" "1" "5" "Rare";
       raw_card "Anna" "" "The First Chapter" "1" "12a" "Rare"] = Some run
    ∧ Exists (λ f, ¬ Sorted spec_card_le (sd_cards f.2)) (run_files run).
Proof.
  eexists. split; [vm_compute; reflexivity|].
  apply Exists_cons_hd. simpl. intros Hs.
  apply Sorted_inv in Hs as [_ Hd]. apply HdRel_inv in Hd.
  revert Hd. vm_compute. intros [[]|[? _]]; discriminate.
Qed.

(** ** Grouping by set *)

Section grouping.
Implicit Types (m : gmap string (list Card)) (n : gmap string nat)
  (rs : list RawCard) (s : string).

Lemma truthy_str_false s : Py.truthy_str s = false ↔ s = "".
Proof. by destruct s. Qed.

Lemma truthy_str_true s : Py.truthy_str s = true ↔ s ≠ "".
Proof. by destruct s. Qed.

Lemma foldl_group_card_lookup m n rs s :
  (foldl group_card (m, n) rs).1 !! s
  = if decide (s = "" ∨ cards_of_set s rs = []) then m !! s
    else Some (default [] (m !! s) ++ cards_of_set s rs).
Proof.
  revert m n. induction rs as [|r rs IH]; intros m n.
  - simpl. rewrite decide_True; [done|by right].
  - cbn [foldl]. unfold group_card at 2.
    unfold cards_of_set. rewrite fmap_cons.
    generalize (convert_card_to_app_format r). intros c.
    destruct (Py.truthy_str (c_setName c)) eqn:Hs; simpl.
    + apply truthy_str_true in Hs. rewrite IH.
      destruct (decide (c_setName c = s)) as [Heq|Hne].
      * rewrite filter_cons_True by done. subst s.
        rewrite lookup_insert_eq; simpl.
        rewrite (decide_False (P := _ ∨ c :: _ = [])) by (intros [?|?]; done).
        fold (cards_of_set (c_setName c) rs). case_decide as Hd.
        { destruct Hd as [?| ->]; [done|]. done. }
        { by rewrite <-app_assoc. }
      * rewrite filter_cons_False by done.
        rewrite lookup_insert_ne by done. done.
    + apply truthy_str_false in Hs. rewrite IH.
      destruct (decide (c_setName c = s)) as [Heq|Hne].
      * rewrite decide_True by (left; congruence).
        rewrite decide_True by (left; congruence). done.
      * rewrite filter_cons_False by done. done.
Qed.

Lemma foldl_group_card_counts m n rs s :
  (foldl group_card (m, n) rs).2 !! s
  = if decide (s = "" ∨ cards_of_set s rs = []) then n !! s
    else Some (default O (n !! s) + length (cards_of_set s rs))%nat.
Proof.
  revert m n. induction rs as [|r rs IH]; intros m n.
  - simpl. rewrite decide_True; [done|by right].
  - cbn [foldl]. unfold group_card at 2.
    unfold cards_of_set. rewrite fmap_cons.
    generalize (convert_card_to_app_format r). intros c.
    destruct (Py.truthy_str (c_setName c)) eqn:Hs; simpl.
    + apply truthy_str_true in Hs. rewrite IH.
      destruct (decide (c_setName c = s)) as [Heq|Hne].
      * rewrite filter_cons_True by done. subst s.
        rewrite lookup_insert_eq; simpl.
        rewrite (decide_False (P := _ ∨ c :: _ = [])) by (intros [?|?]; done).
        fold (cards_of_set (c_setName c) rs). case_decide as Hd.
        { destruct Hd as [?| ->]; [done|]. simpl. f_equal. lia. }
        { f_equal. lia. }
      * rewrite filter_cons_False by done.
        rewrite lookup_insert_ne by done. done.
    + apply truthy_str_false in Hs. rewrite IH.
      destruct (decide (c_setName c = s)) as [Heq|Hne].
      * rewrite decide_True by (left; congruence).
        rewrite decide_True by (left; congruence). done.
      * rewrite filter_cons_False by done. done.
Qed.

Lemma group_cards_lookup rs s :
  (group_cards rs).1 !! s
  = if decide (s = "" ∨ cards_of_set s rs = []) then None
    else Some (cards_of_set s rs).
Proof.
  unfold group_cards. rewrite foldl_group_card_lookup, lookup_empty. done.
Qed.

Lemma group_cards_counts rs s :
  (group_cards rs).2 !! s = length <$> (group_cards rs).1 !! s.
Proof.
  unfold group_cards.
  rewrite foldl_group_card_counts, foldl_group_card_lookup, !lookup_empty.
  by case_decide.
Qed.
End grouping.

(** ** The files written *)

Section files.
Implicit Types (m : gmap string (list Card)) (s : string) (c : Card).

Lemma elem_of_sorted_keys m s :
  s ∈ merge_sort String.le (elements (dom m)) ↔ is_Some (m !! s).
Proof. by rewrite merge_sort_Permutation, elem_of_elements, elem_of_dom. Qed.

Lemma elem_of_set_files m f :
  f ∈ set_files m ↔ ∃ s cards, m !! s = Some cards ∧ f = write_set s cards.
Proof.
  unfold set_files, sorted_items. rewrite <-list_fmap_compose.
  rewrite list_elem_of_fmap. split.
  - intros (s & -> & [cards Hs]%elem_of_sorted_keys).
    exists s, cards. simpl. by rewrite Hs.
  - intros (s & cards & Hs & ->). exists s. split.
    + simpl. by rewrite Hs.
    + apply elem_of_sorted_keys. eauto.
Qed.

Lemma elem_of_dedup c cards : c ∈ dedup cards → c ∈ cards.
Proof.
  rewrite dedup_unfold. intros Hc.
  by apply (sublist_subseteq _ _ (dedup_from_sublist ∅ cards)).
Qed.

Lemma elem_of_write_set c s cards :
  c ∈ sd_cards (write_set s cards).2 ↔ c ∈ dedup cards.
Proof. simpl. by rewrite sort_cards_Permutation. Qed.

Lemma elem_of_all_new_cards m c :
  c ∈ all_new_cards_of (set_files m)
  ↔ ∃ s cards, m !! s = Some cards ∧ c ∈ dedup cards.
Proof.
  unfold all_new_cards_of. rewrite list_elem_of_bind. split.
  - intros (f & Hc & (s & cards & Hs & ->)%elem_of_set_files).
    exists s, cards. split; [done|]. by apply elem_of_write_set in Hc.
  - intros (s & cards & Hs & Hc). exists (write_set s cards). split.
    + by apply elem_of_write_set.
    + apply elem_of_set_files. eauto.
Qed.

Lemma set_files_ext m m' :
  dom m' = dom m →
  (∀ s, dedup (default [] (m' !! s)) = dedup (default [] (m !! s))) →
  set_files m' = set_files m.
Proof.
  intros Hdom Hded. unfold set_files, sorted_items.
  rewrite <-!list_fmap_compose, Hdom.
  apply list_fmap_ext. intros _ s _. simpl.
  unfold write_set. by rewrite Hded.
Qed.

Lemma group_cards_default rs s :
  s ≠ "" → default [] ((group_cards rs).1 !! s) = cards_of_set s rs.
Proof.
  intros Hs. rewrite group_cards_lookup. case_decide as Hd; [|done].
  by destruct Hd as [?| ->].
Qed.

Lemma group_cards_empty_name rs : (group_cards rs).1 !! "" = None.
Proof. rewrite group_cards_lookup. rewrite decide_True; [done|by left]. Qed.

Lemma elem_of_cards_of_set c s rs :
  c ∈ cards_of_set s rs
  ↔ c_setName c = s ∧ ∃ r, r ∈ rs ∧ c = convert_card_to_app_format r.
Proof.
  unfold cards_of_set. rewrite list_elem_of_filter, list_elem_of_fmap.
  naive_solver.
Qed.

Lemma elem_of_group_cards rs s cards c :
  (group_cards rs).1 !! s = Some cards → c ∈ cards →
  s ≠ "" ∧ c_setName c = s ∧ ∃ r, r ∈ rs ∧ c = convert_card_to_app_format r.
Proof.
  rewrite group_cards_lookup. case_decide as Hd; [done|].
  intros [= <-] Hc%elem_of_cards_of_set. split; [|done].
  intros ->. apply Hd. by left.
Qed.
End files.

(** ** Fetched records and the run *)

Section json.
Implicit Types (cards : list JsonCard) (rs : list RawCard) (j : JsonCard)
  (r : RawCard).

Lemma foldl_group_json_card_None cards :
  foldl group_json_card None cards = None.
Proof. induction cards as [|j l IH]; [done|]. simpl. done. Qed.

Lemma foldl_group_json_card cards st :
  foldl group_json_card (Some st) cards
  = (λ rs, foldl group_card st rs) <$> mapM read_card cards.
Proof.
  revert st. induction cards as [|j l IH]; intros st; [done|].
  cbn [foldl]. unfold group_json_card at 2.
  destruct (read_card j) as [r|] eqn:Hr.
  - rewrite IH. cbn [mapM]. rewrite Hr. simpl.
    by destruct (mapM read_card l).
  - rewrite foldl_group_json_card_None. cbn [mapM]. by rewrite Hr.
Qed.

Lemma download_and_convert_json_readable existing cards rs :
  mapM read_card cards = Some rs → cards ≠ [] →
  ∃ run, download_and_convert_json existing cards = Completed run
         ∧ download_and_convert existing rs = Some run.
Proof.
  intros Hrs Hne. unfold download_and_convert_json, download_and_convert.
  rewrite foldl_group_json_card, Hrs. simpl. fold (group_cards rs).
  destruct cards as [|j l]; [done|].
  destruct rs as [|r rs'].
  { apply mapM_Some_1, Forall2_length in Hrs. done. }
  destruct (group_cards (r :: rs')) as [m n]. eauto.
Qed.

Lemma download_and_convert_json_unreadable existing cards :
  Exists (λ j, read_card j = None) cards →
  download_and_convert_json existing cards = Crashed.
Proof.
  intros Hex. unfold download_and_convert_json.
  destruct cards as [|j l]; [by apply Exists_nil in Hex|].
  rewrite foldl_group_json_card. apply mapM_None_2 in Hex. by rewrite Hex.
Qed.

Lemma read_card_None j :
  read_card j = None
  ↔ j_set j = JSetNull ∨ (∃ code, j_set j = JSetObject JNull code)
    ∨ j_rarity j = JNull
    ∨ (j_name j = JNull ∧ text_or_empty (j_version j) = "").
Proof.
  unfold read_card, read_set, read_rarity, read_name.
  destruct (j_set j) as [| |[| |n] code], (j_rarity j), (j_name j);
    destruct (text_or_empty (j_version j)); simpl; naive_solver.
Qed.

Lemma read_card_set_name j r :
  read_card j = Some r →
  c_setName (convert_card_to_app_format r)
  = json_set_name (j_set j).
Proof.
  unfold read_card, read_set.
  destruct (j_set j) as [| |[| |n] code]; repeat case_match;
    intros; by simplify_eq.
Qed.

Lemma download_and_convert_nonempty existing (rs : list RawCard) :
  rs ≠ [] →
  download_and_convert existing rs
  = let cards_by_set := (group_cards rs).1 in
    let all_new_cards := all_new_cards_of (set_files cards_by_set) in
    let migration_map :=
      build_migration_map (load_existing_cards existing) all_new_cards in
    Some {| run_set_counts := (group_cards rs).2;
            run_files := set_files cards_by_set;
            run_migration := migration_map;
            run_summary := summarize all_new_cards cards_by_set migration_map |}.
Proof.
  intros Hne. unfold download_and_convert. destruct rs as [|r rs]; [done|].
  by destruct (group_cards (r :: rs)).
Qed.
End json.

(** C6, as the code has it, for a fetch in which the conversion accepts
    every record: the run completes; a record whose set or set name is
    missing or empty is skipped, is not counted and reaches no catalog;
    every other record, named or not, yields exactly one card in the group
    of its set, in input order. *)
Theorem rejection_policy existing (cards : list JsonCard) (rs : list RawCard) :
  mapM read_card cards = Some rs → cards ≠ [] →
  ∃ run,
    download_and_convert_json existing cards = Completed run
    ∧ Forall2 (λ j r, read_card j = Some r
                 ∧ c_setName (convert_card_to_app_format r)
                   = json_set_name (j_set j))
        cards rs
    ∧ run_files run = set_files (group_cards rs).1
    ∧ (∀ s, (group_cards rs).1 !! s
        = (let l := filter (λ c, c_setName c = s)
                      (convert_card_to_app_format <$> rs) in
           if decide (s = "" ∨ l = []) then None else Some l))
    ∧ run_set_counts run !! "" = None
    ∧ Forall (λ f, sd_setName f.2 ≠ ""
                   ∧ Forall (λ c, c_setName c = sd_setName f.2) (sd_cards f.2))
        (run_files run).
Proof.
  intros Hrs Hne.
  destruct (download_and_convert_json_readable existing cards rs Hrs Hne)
    as (run & Hrun & Hconv).
  exists run. split; [done|]. split.
  { apply mapM_Some_1 in Hrs. eapply Forall2_impl; [done|].
    intros j r Hj. split; [done|]. by apply read_card_set_name. }
  unfold download_and_convert in Hconv.
  assert (run_files run = set_files (group_cards rs).1
          ∧ run_set_counts run = (group_cards rs).2) as [Hfiles Hcounts].
  { destruct rs as [|r rs']; [done|].
    destruct (group_cards (r :: rs')) as [m n]. by simplify_eq. }
  split_and!; [done|..].
  - apply group_cards_lookup.
  - by rewrite Hcounts, group_cards_counts, group_cards_empty_name.
  - rewrite Hfiles. apply Forall_forall.
    intros f (s' & cs & Hs & ->)%elem_of_set_files.
    simpl. split.
    + intros ->. by rewrite group_cards_empty_name in Hs.
    + apply Forall_forall. intros c Hc.
      rewrite sort_cards_Permutation in Hc. apply elem_of_dedup in Hc.
      by destruct (elem_of_group_cards _ _ _ _ Hs Hc) as (_ & ? & _).
Qed.

(** The theorem at three records: one without a set, one without a name
    and an ordinary one. *)
Lemma rejection_policy_witness :
  let tfc := JSetObject (JText "The First Chapter") (JText "1") in
  let no_set := json_card (JText "Elsa") JAbsent JSetAbsent (JText "1") (JText "Rare") in
  let no_name := json_card JAbsent JAbsent tfc (JText "7") (JText "Common") in
  let plain := json_card (JText "Anna") JNull tfc (JText "2") (JText "Common") in
  let r1 := raw_card "Elsa" "" "" "" "1" "Rare" in
  let r2 := raw_card "" "" "The First Chapter" "1" "7" "Common" in
  let r3 := raw_card "Anna" "" "The First Chapter" "1" "2" "Common" in
  mapM read_card [no_set; no_name; plain] = Some [r1; r2; r3]
  ∧ ∃ run,
      download_and_convert_json [] [no_set; no_name; plain] = Completed run
      ∧ (group_cards [r1; r2; r3]).1 !! "The First Chapter"
        = Some (convert_card_to_app_format <$> [r2; r3])
      ∧ length (run_files run) = 1%nat.
Proof.
  intros tfc no_set no_name plain r1 r2 r3.
  assert (mapM read_card [no_set; no_name; plain] = Some [r1; r2; r3]) as Hrs
    by (vm_compute; reflexivity).
  assert ([no_set; no_name; plain] ≠ []) as Hne by discriminate.
  split; [assumption|].
  destruct (rejection_policy [] _ _ Hrs Hne)
    as (run & Hrun & _ & Hfiles & Hgroup & _ & _).
  exists run. split; [assumption|]. split.
  - rewrite Hgroup. vm_compute. reflexivity.
  - rewrite Hfiles. vm_compute. reflexivity.
Defined.

(** A record with a [null] set ends the run at the conversion, whatever
    the other records are. *)
Lemma null_set_ends_run :
  let tfc := JSetObject (JText "The First Chapter") (JText "1") in
  let plain := json_card (JText "Anna") JNull tfc (JText "2") (JText "Common") in
  let broken := json_card (JText "Elsa") JAbsent JSetNull (JText "1") (JText "Rare") in
  download_and_convert_json [] [plain; broken; plain] = Crashed.
Proof. vm_compute. reflexivity. Qed.

(** C6 as stated fails: a record without a name is converted and written to
    the catalog of its set. *)
Lemma nameless_card_kept :
  let nameless := raw_card "" "" "The First Chapter" "1" "7" "Common" in
  r_name nameless = ""
  ∧ ∃ run, download_and_convert [] [nameless] = Some run
      ∧ Exists (λ f, convert_card_to_app_format nameless ∈ sd_cards f.2)
          (run_files run).
Proof.
  split; [done|]. eexists. split; [vm_compute; reflexivity|].
  apply Exists_cons_hd. simpl. apply list_elem_of_here.
Qed.

(** ** Duplicates and the summary *)

Section duplicates.
Implicit Types (seen : gset string) (cards acc : list Card) (c : Card).

Lemma dedup_from_app seen l k :
  dedup_from seen (l ++ k)
  = dedup_from seen l ++ dedup_from (list_to_set (c_id <$> l) ∪ seen) k.
Proof.
  revert seen. induction l as [|c l IH]; intros seen; simpl.
  - f_equal. set_solver.
  - case_decide as Hc.
    + rewrite IH. do 2 f_equal. set_solver.
    + rewrite IH. simpl. do 3 f_equal. set_solver.
Qed.

Lemma dedup_app_seen l c : c ∈ l → dedup (l ++ [c]) = dedup l.
Proof.
  intros Hc. rewrite !dedup_unfold, dedup_from_app. simpl.
  rewrite decide_True; [by rewrite app_nil_r|].
  apply elem_of_union_l, elem_of_list_to_set, list_elem_of_fmap. eauto.
Qed.

Lemma cards_of_set_app s rs rs' :
  cards_of_set s (rs ++ rs') = cards_of_set s rs ++ cards_of_set s rs'.
Proof. unfold cards_of_set. by rewrite fmap_app, filter_app. Qed.

Lemma cards_of_set_dup s rs r :
  r ∈ rs →
  cards_of_set s (rs ++ [r]) = cards_of_set s rs
  ∨ ∃ c, c ∈ cards_of_set s rs ∧ cards_of_set s (rs ++ [r]) = cards_of_set s rs ++ [c].
Proof.
  intros Hr. rewrite cards_of_set_app.
  destruct (decide (c_setName (convert_card_to_app_format r) = s)) as [Hs|Hs].
  - right. exists (convert_card_to_app_format r). split.
    + apply elem_of_cards_of_set. eauto.
    + f_equal. unfold cards_of_set. rewrite fmap_cons, fmap_nil.
      by rewrite filter_cons_True, filter_nil.
  - left. unfold cards_of_set at 2. rewrite fmap_cons, fmap_nil.
    by rewrite filter_cons_False, filter_nil, app_nil_r.
Qed.

Lemma set_files_dup rs r :
  r ∈ rs →
  set_files (group_cards (rs ++ [r])).1 = set_files (group_cards rs).1
  ∧ size (group_cards (rs ++ [r])).1 = size (group_cards rs).1.
Proof.
  intros Hr.
  assert (dom (group_cards (rs ++ [r])).1 = dom (group_cards rs).1) as Hdom.
  { apply set_eq. intros s. rewrite !elem_of_dom, !group_cards_lookup.
    destruct (cards_of_set_dup s rs r Hr) as [->|(c & Hc & ->)]; [done|].
    repeat case_decide; try done.
    - exfalso. destruct H as [?|H]; [tauto|]. by destruct (cards_of_set s rs).
    - exfalso. destruct H0 as [?|H0]; [tauto|]. rewrite H0 in Hc.
      by apply elem_of_nil in Hc. }
  split.
  - apply set_files_ext; [done|]. intros s.
    destruct (decide (s = "")) as [->|Hs].
    { by rewrite !group_cards_empty_name. }
    rewrite !group_cards_default by done.
    destruct (cards_of_set_dup s rs r Hr) as [->|(c & Hc & ->)]; [done|].
    by apply dedup_app_seen.
  - by rewrite <-!size_dom, Hdom.
Qed.
End duplicates.

Section undropped.
Implicit Types (rs : list RawCard) (s : string) (l : list Card).

Lemma dedup_idemp l : dedup (dedup l) = dedup l.
Proof.
  rewrite !dedup_unfold. apply dedup_from_id.
  - apply dedup_from_NoDup.
  - set_solver.
Qed.

Lemma dedup_nil_inv l : dedup l = [] → l = [].
Proof.
  rewrite dedup_unfold. destruct l as [|c l]; [done|]. simpl.
  by rewrite decide_False by set_solver.
Qed.

Lemma cards_of_set_cons s r rs :
  cards_of_set s (r :: rs)
  = if decide (c_setName (convert_card_to_app_format r) = s)
    then convert_card_to_app_format r :: cards_of_set s rs
    else cards_of_set s rs.
Proof.
  unfold cards_of_set. rewrite fmap_cons, filter_cons. by case_decide.
Qed.

Lemma cards_of_set_undropped_from s (seen : gset (string * string))
    (ids : gset string) rs :
  s ≠ "" → (∀ i, i ∈ ids ↔ (s, i) ∈ seen) →
  cards_of_set s (undropped_from seen rs) = dedup_from ids (cards_of_set s rs).
Proof.
  intros Hs. revert seen ids.
  induction rs as [|r rs IH]; intros seen ids Hids; [done|].
  cbn [undropped_from]. rewrite (cards_of_set_cons s r rs).
  set (c := convert_card_to_app_format r) in *.
  destruct (decide (c_setName c ≠ "" ∧ (c_setName c, c_id c) ∈ seen))
    as [[Hc Hin]|Hnot].
  - destruct (decide (c_setName c = s)) as [Heq|Hne].
    + simpl. rewrite decide_True by (apply Hids; by rewrite <-Heq).
      by apply IH.
    + by apply IH.
  - rewrite cards_of_set_cons. fold c.
    destruct (decide (c_setName c = s)) as [Heq|Hne].
    + simpl. rewrite decide_False.
      2:{ rewrite Hids, <-Heq. intros Hin. apply Hnot. split; [|done].
          by rewrite Heq. }
      f_equal. apply IH. intros i.
      rewrite !elem_of_union, !elem_of_singleton, Hids, <-Heq.
      split; [intros [->|?]; auto|intros [[= ->]|?]; auto].
    + apply IH. intros i. rewrite Hids, elem_of_union, elem_of_singleton.
      split; [auto|]. intros [[= ? _]|?]; [|done]. by destruct Hne.
Qed.

Lemma cards_of_set_undropped s rs :
  s ≠ "" → cards_of_set s (undropped rs) = dedup (cards_of_set s rs).
Proof.
  intros Hs. rewrite dedup_unfold.
  apply cards_of_set_undropped_from; [done|]. set_solver.
Qed.

Lemma group_cards_undropped_dom rs :
  dom (group_cards (undropped rs)).1 = dom (group_cards rs).1.
Proof.
  apply set_eq. intros s. rewrite !elem_of_dom, !group_cards_lookup.
  destruct (decide (s = "")) as [->|Hs].
  { rewrite !decide_True by (by left). done. }
  rewrite cards_of_set_undropped by done.
  destruct (cards_of_set s rs) as [|c l] eqn:Hl.
  { rewrite !decide_True by (by right). done. }
  rewrite !decide_False; [by split; eauto|intros [?|?]; done|].
  intros [?|Hd%dedup_nil_inv]; done.
Qed.

Lemma set_files_undropped rs :
  set_files (group_cards (undropped rs)).1 = set_files (group_cards rs).1.
Proof.
  apply set_files_ext; [apply group_cards_undropped_dom|]. intros s.
  destruct (decide (s = "")) as [->|Hs].
  { by rewrite !group_cards_empty_name. }
  rewrite !group_cards_default by done.
  by rewrite cards_of_set_undropped, dedup_idemp.
Qed.


Lemma sum_list_zero (ns : list nat) : Forall (λ n, n = 0%nat) ns → sum_list ns = 0%nat.
Proof. induction 1 as [|n l -> _ IH]; [done|]. simpl. done. Qed.

Lemma duplicates_dropped_undropped rs :
  duplicates_dropped (undropped rs) = 0%nat.
Proof.
  unfold duplicates_dropped, sorted_items. rewrite <-list_fmap_compose.
  apply sum_list_zero, Forall_fmap, Forall_forall.
  intros s [cs Hs]%elem_of_sorted_keys. simpl. rewrite Hs. simpl.
  rewrite group_cards_lookup in Hs. case_decide as Hd; [done|].
  injection Hs as <-. rewrite cards_of_set_undropped, dedup_idemp; [lia|].
  intros ->. apply Hd. by left.
Qed.

Lemma undropped_nonempty rs : rs ≠ [] → undropped rs ≠ [].
Proof.
  destruct rs as [|r rs]; [done|]. intros _. unfold undropped. simpl.
  rewrite decide_False; [done|]. intros [_ ?]. set_solver.
Qed.

Lemma undropped_sublist rs : sublist (undropped rs) rs.
Proof.
  unfold undropped. generalize (∅ : gset (string * string)).
  induction rs as [|r rs IH]; intros seen; [done|]. simpl.
  case_decide; [apply sublist_cons|apply sublist_skip]; apply IH.
Qed.
End undropped.

(** C9, as the code has it, for a fetch in which the conversion accepts
    every record: the run completes, and it writes the files, the
    migration map and the summary of the same fetch without the records
    the deduplication drops, be they repeats or distinct tuples with one
    id; on that fetch nothing is dropped, so no figure of the summary
    tells how many records were dropped; the total is the number of cards
    kept. *)
Theorem duplicates_not_reported existing (cards : list JsonCard)
    (rs : list RawCard) :
  mapM read_card cards = Some rs → cards ≠ [] →
  ∃ run run',
    download_and_convert_json existing cards = Completed run
    ∧ download_and_convert existing (undropped rs) = Some run'
    ∧ sublist (undropped rs) rs
    ∧ (∀ s, s ≠ "" → cards_of_set s (undropped rs) = dedup (cards_of_set s rs))
    ∧ duplicates_dropped (undropped rs) = 0%nat
    ∧ run_files run = run_files run'
    ∧ run_migration run = run_migration run'
    ∧ run_summary run = run_summary run'
    ∧ total_cards (run_summary run) = length (new_cards_of_run run).
Proof.
  intros Hrs Hne.
  destruct (download_and_convert_json_readable existing cards rs Hrs Hne)
    as (run & Hrun & Hconv).
  assert (rs ≠ []) as Hrs_ne.
  { intros ->. apply mapM_Some_1, Forall2_length in Hrs.
    by destruct cards. }
  rewrite download_and_convert_nonempty in Hconv by done.
  injection Hconv as <-.
  eexists _, _. split; [done|].
  split; [by apply download_and_convert_nonempty, undropped_nonempty|].
  split; [apply undropped_sublist|].
  split; [intros s; apply cards_of_set_undropped|].
  split; [apply duplicates_dropped_undropped|].
  cbn [run_files run_migration run_summary]. unfold summarize.
  by rewrite set_files_undropped, <-!size_dom, group_cards_undropped_dom.
Qed.

(** The theorem at a fetch where the third record collides with the first
    (their names differ by an apostrophe) and the fourth repeats the
    second. *)
Lemma duplicates_not_reported_witness :
  let tfc := JSetObject (JText "The First Chapter") (JText "1") in
  let p1 := json_card (JText "Peter Pan's Shadow") JAbsent tfc (JText "12") (JText "Rare") in
  let p2 := json_card (JText "Peter Pans Shadow") JAbsent tfc (JText "12") (JText "Rare") in
  let b := json_card (JText "Anna") JAbsent tfc (JText "2") (JText "Common") in
  let r1 := raw_card "Peter Pan's Shadow" "" "The First Chapter" "1" "12" "Rare" in
  let r2 := raw_card "Anna" "" "The First Chapter" "1" "2" "Common" in
  let r3 := raw_card "Peter Pans Shadow" "" "The First Chapter" "1" "12" "Rare" in
  mapM read_card [p1; b; p2; b] = Some [r1; r2; r3; r2]
  ∧ undropped [r1; r2; r3; r2] = [r1; r2]
  ∧ ∃ run run',
      download_and_convert_json [] [p1; b; p2; b] = Completed run
      ∧ download_and_convert [] [r1; r2] = Some run'
      ∧ run_files run = run_files run'
      ∧ run_migration run = run_migration run'
      ∧ run_summary run = run_summary run'
      ∧ total_cards (run_summary run) = 2%nat.
Proof.
  intros tfc p1 p2 b r1 r2 r3.
  assert (mapM read_card [p1; b; p2; b] = Some [r1; r2; r3; r2]) as Hrs
    by (vm_compute; reflexivity).
  assert (undropped [r1; r2; r3; r2] = [r1; r2]) as Hun
    by (vm_compute; reflexivity).
  assert ([p1; b; p2; b] ≠ []) as Hcards by discriminate.
  do 2 (split; [assumption|]).
  destruct (duplicates_not_reported [] _ _ Hrs Hcards)
    as (run & run' & Hrun & Hrun' & _ & _ & _ & Hf & Hm & Hs & Htotal).
  rewrite Hun in Hrun'.
  exists run, run'. do 5 (split; [assumption|]).
  rewrite Hs. rewrite download_and_convert_nonempty in Hrun' by discriminate.
  injection Hrun' as <-. vm_compute. reflexivity.
Defined.

(** C9 as stated fails: a run that drops one duplicate and a run that drops
    none print the same summary. *)
Lemma summary_hides_duplicates :
  let r := raw_card "Ariel" "" "The First Chapter" "1" "7" "Rare" in
  ∃ run1 run2,
    download_and_convert [] [r] = Some run1
    ∧ download_and_convert [] [r; r] = Some run2
    ∧ run_summary run1 = run_summary run2
    ∧ duplicates_dropped [r] = 0%nat
    ∧ duplicates_dropped [r; r] = 1%nat.
Proof.
  do 2 eexists. split_and!; vm_compute; reflexivity.
Qed.

(** ** The matching cascade *)

Section cascade.
Implicit Types (old : gmap string Card) (new o : Card)
  (m : gmap string MigrationEntry).

Lemma find_old_cascade old new :
  (find_old old new).1
  = match uid_lookup old new with
    | Some o => Some o
    | None => match name_lookup old new with
              | Some o => Some o
              | None => num_lookup old new
              end
    end.
Proof.
  unfold find_old, strategy_number_set, strategy_name_set,
    strategy_unique_id, uid_lookup, name_lookup, num_lookup.
  destruct (c_uniqueId new) as [u|]; simpl;
    repeat (case_match; simpl in *; simplify_eq; try done).
Qed.

Lemma find_old_id old new :
  (find_old old new).2 = c_id <$> (find_old old new).1.
Proof.
  unfold find_old, strategy_number_set, strategy_name_set,
    strategy_unique_id.
  destruct (c_uniqueId new) as [u|]; simpl;
    repeat (case_match; simpl in *; simplify_eq; try done).
Qed.

Lemma match_method_uid old new o :
  uid_lookup old new = Some o → match_method_of old new = "uniqueId".
Proof.
  unfold uid_lookup, match_method_of.
  destruct (c_uniqueId new) as [u|]; [|done].
  destruct (Py.truthy_str u); [|done]. intros Ho. simpl.
  by rewrite bool_decide_eq_true_2 by eauto.
Qed.

Lemma match_method_not_uid old new :
  uid_lookup old new = None → match_method_of old new = "name+set".
Proof.
  unfold uid_lookup, match_method_of.
  destruct (c_uniqueId new) as [u|]; [|done].
  destruct (Py.truthy_str u); [|done]. intros Ho. simpl.
  rewrite bool_decide_eq_false_2; [done|]. rewrite Ho. by intros [? ?].
Qed.

Lemma migrate_card_found old m new o :
  (find_old old new).1 = Some o → c_id o ≠ "" →
  migrate_card old m new
  = <[c_id o := make_entry old new (c_id o)]> m.
Proof.
  intros Ho Hid. unfold migrate_card. rewrite find_old_id, Ho. simpl.
  apply truthy_str_true in Hid. by rewrite Hid.
Qed.

Lemma migrate_card_none old m new :
  (find_old old new).1 = None → migrate_card old m new = m.
Proof. intros Ho. unfold migrate_card. by rewrite find_old_id, Ho. Qed.
End cascade.

Section reconciler.
Implicit Types (old : gmap string Card) (new c : Card) (l : list Card).

Lemma build_migration_map_snoc old l c :
  build_migration_map old (l ++ [c])
  = migrate_card old (build_migration_map old l) c.
Proof. unfold build_migration_map. by rewrite foldl_app. Qed.

Lemma build_migration_map_app old l l' :
  build_migration_map old (l ++ l')
  = foldl (migrate_card old) (build_migration_map old l) l'.
Proof. unfold build_migration_map. by rewrite foldl_app. Qed.

Lemma migrate_card_lookup old m c k :
  migrate_card old m c !! k
  = if decide ((find_old old c).2 = Some k ∧ k ≠ "")
    then Some (make_entry old c k) else m !! k.
Proof.
  unfold migrate_card. destruct (find_old old c).2 as [i|] eqn:Hi.
  - destruct (Py.truthy_str i) eqn:Ht.
    + apply truthy_str_true in Ht. destruct (decide (i = k)) as [->|Hne].
      * rewrite lookup_insert_eq. by rewrite decide_True.
      * rewrite lookup_insert_ne by done. rewrite decide_False; [done|].
        intros [[= ?] _]. done.
    + apply truthy_str_false in Ht. subst i. rewrite decide_False; [done|].
      intros [[= <-] ?]. done.
  - rewrite decide_False; [done|]. by intros [? _].
Qed.

Lemma foldl_migrate_card_lookup old m l k :
  foldl (migrate_card old) m l !! k
  = match last (filter (λ c, (find_old old c).2 = Some k) l) with
    | Some c => if decide (k = "") then m !! k else Some (make_entry old c k)
    | None => m !! k
    end.
Proof.
  induction l as [|c l IH] using rev_ind; [done|].
  rewrite foldl_app. cbn [foldl]. rewrite migrate_card_lookup, filter_app.
  rewrite filter_cons, filter_nil.
  destruct (decide ((find_old old c).2 = Some k)) as [Hk|Hk].
  - rewrite last_snoc. destruct (decide (k = "")) as [->|Hne].
    + rewrite decide_False by (by intros [_ ?]). rewrite IH.
      by destruct (last _).
    + by rewrite decide_True.
  - rewrite app_nil_r, decide_False by (by intros [? _]). apply IH.
Qed.

Lemma build_migration_map_lookup old l k :
  build_migration_map old l !! k
  = if decide (k = "") then None
    else (λ c, make_entry old c k)
           <$> last (filter (λ c, (find_old old c).2 = Some k) l).
Proof.
  unfold build_migration_map. rewrite foldl_migrate_card_lookup, lookup_empty.
  destruct (last _); by case_decide.
Qed.
End reconciler.

(** C3, on the map [build_migration_map] returns: for every new card the
    cascade is the uniqueId lookup, then name and set, then number and
    set, the first hit being kept; the entry under an old id is the one
    made for the last new card whose first hit is that old card.  When the
    uniqueId lookup and the name lookup of a new card hit two different
    old cards, its entry is stored under the id of the uniqueId hit and is
    labelled [uniqueId], the entry under the id of the name hit is left as
    it was, and the entry stays in the returned map unless a later card
    hits the same old card. *)
Theorem strategy_precedence (old : gmap string Card) (new_cards : list Card) :
  (∀ new, (find_old old new).1
          = match uid_lookup old new with
            | Some o => Some o
            | None => match name_lookup old new with
                      | Some o => Some o
                      | None => num_lookup old new
                      end
            end
          ∧ (find_old old new).2 = c_id <$> (find_old old new).1)
  ∧ (∀ k, build_migration_map old new_cards !! k
          = if decide (k = "") then None
            else (λ c, make_entry old c k)
                   <$> last (filter (λ c, (find_old old c).2 = Some k) new_cards))
  ∧ ∀ before new after o1 o2,
      new_cards = before ++ new :: after →
      uid_lookup old new = Some o1 → name_lookup old new = Some o2 →
      c_id o1 ≠ c_id o2 → c_id o1 ≠ "" →
      let e := make_entry old new (c_id o1) in
      m_old_id e = c_id o1 ∧ m_new_id e = c_id new
      ∧ m_match_method e = "uniqueId"
      ∧ build_migration_map old (before ++ [new]) !! c_id o1 = Some e
      ∧ build_migration_map old (before ++ [new]) !! c_id o2
        = build_migration_map old before !! c_id o2
      ∧ (Forall (λ c, (find_old old c).2 ≠ Some (c_id o1)) after →
         build_migration_map old new_cards !! c_id o1 = Some e).
Proof.
  split_and!.
  - intros new. split; [apply find_old_cascade|apply find_old_id].
  - apply build_migration_map_lookup.
  - intros before new after o1 o2 -> H1 H2 Hne Hid e.
    assert ((find_old old new).2 = Some (c_id o1)) as Hf.
    { by rewrite find_old_id, find_old_cascade, H1. }
    split_and!; [done|done|by eapply match_method_uid|..].
    + rewrite build_migration_map_snoc, migrate_card_lookup.
      by rewrite decide_True.
    + rewrite build_migration_map_snoc, migrate_card_lookup.
      rewrite decide_False; [done|]. rewrite Hf. intros [[= ?] _]. done.
    + intros Hafter. rewrite build_migration_map_lookup.
      rewrite decide_False by done.
      rewrite filter_app, filter_cons_True by done.
      assert (filter (λ c, (find_old old c).2 = Some (c_id o1)) after = [])
        as ->.
      { induction Hafter as [|c l Hc _ IH]; [done|].
        by rewrite filter_cons_False. }
      by rewrite last_snoc.
Qed.

(** The theorem at a snapshot where the unique id and the name of the
    second new card lead to two different old cards. *)
Lemma strategy_precedence_witness :
  let a := old_card "TFC_1_Elsa_old" "Elsa - Ice Queen" "The First Chapter"
             (Some 1) (Some "TFC-001") in
  let b := old_card "TFC_9_Elsa" "Elsa" "The First Chapter"
             (Some 9) (Some "TFC-009") in
  let old := load_existing_cards [[a; b]] in
  let new := convert_card_to_app_format
               (raw_card "Elsa" "" "The First Chapter" "1" "001" "Rare") in
  let first := convert_card_to_app_format
               (raw_card "Elsa" "" "The First Chapter" "1" "9" "Rare") in
  let other := convert_card_to_app_format
               (raw_card "Anna" "" "The First Chapter" "1" "2" "Common") in
  let e := make_entry old new (c_id a) in
  uid_lookup old new = Some a ∧ name_lookup old new = Some b
  ∧ build_migration_map old [first; new; other] !! c_id a = Some e
  ∧ m_old_id e = c_id a ∧ m_new_id e = c_id new
  ∧ m_match_method e = "uniqueId"
  ∧ build_migration_map old [first; new] !! c_id b
    = build_migration_map old [first] !! c_id b.
Proof.
  intros a b old new first other e.
  assert (uid_lookup old new = Some a) as H1 by (vm_compute; reflexivity).
  assert (name_lookup old new = Some b) as H2 by (vm_compute; reflexivity).
  assert (c_id a ≠ c_id b) as Hne by (vm_compute; discriminate).
  assert (c_id a ≠ "") as Hid by (vm_compute; discriminate).
  assert (Forall (λ c, (find_old old c).2 ≠ Some (c_id a)) [other]) as Hafter.
  { constructor; [vm_compute; discriminate|constructor]. }
  destruct (proj2 (proj2 (strategy_precedence old [first; new; other]))
              [first] new [other] a b eq_refl H1 H2 Hne Hid)
    as (Ho & Hn & Hm & _ & Hb & Hfinal).
  split_and!; [done|done|by apply Hfinal|done|done|done|exact Hb].
Defined.

(** The method recorded in an entry takes two values only. *)
Lemma match_method_values old new :
  match_method_of old new = "uniqueId" ∨ match_method_of old new = "name+set".
Proof.
  unfold match_method_of. repeat case_match; auto.
Qed.

(** C4: the code at the failing input.  The old card has no unique id and
    another name, so only the number and set lookup finds it; the entry
    written for it is labelled [name+set]. *)
Lemma number_match_mislabelled :
  let o := old_card "TFC_5_Elsa_old" "Elsa - Ice Queen" "The First Chapter"
             (Some 5) None in
  let raw := raw_card "Elsa" "Snow Queen" "The First Chapter" "1" "5" "Rare" in
  let old := load_existing_cards [[o]] in
  let new := convert_card_to_app_format raw in
  uid_lookup old new = None ∧ name_lookup old new = None
  ∧ num_lookup old new = Some o
  ∧ ∃ run e, download_and_convert [[o]] [raw] = Some run
      ∧ run_migration run !! c_id o = Some e
      ∧ m_new_id e = c_id new
      ∧ m_match_method e = "name+set".
Proof.
  split_and!; try (vm_compute; reflexivity).
  do 2 eexists. split_and!; vm_compute; reflexivity.
Qed.

(** ** Unique ids *)

Section keys.
Lemma uid_key_inj u u' : uid_key u = uid_key u' → u = u'.
Proof. unfold uid_key. apply (inj (String.app "uid:")). Qed.

Lemma uid_key_ne_name_key u n s : uid_key u ≠ name_key n s.
Proof. unfold uid_key, name_key. cbv [String.append]. discriminate. Qed.

Lemma uid_key_ne_num_key u n s : uid_key u ≠ num_key n s.
Proof. unfold uid_key, num_key. cbv [String.append]. discriminate. Qed.

Lemma index_card_uid (ex : gmap string Card) (card : Card) u :
  index_card ex card !! uid_key u
  = if decide (c_name card ≠ "" ∧ u ≠ "" ∧ c_uniqueId card = Some u)
    then Some card else ex !! uid_key u.
Proof.
  assert (∀ n s, num_key n s ≠ uid_key u) as Hnum.
  { intros n s H. by apply eq_sym, uid_key_ne_num_key in H. }
  assert (∀ n s, name_key n s ≠ uid_key u) as Hname.
  { intros n s H. by apply eq_sym, uid_key_ne_name_key in H. }
  unfold index_card.
  destruct (Py.truthy_str (c_name card)) eqn:Hn; simpl.
  - apply truthy_str_true in Hn.
    trans ((if Py.truthy_str (default "" (c_uniqueId card))
            then <[uid_key (default "" (c_uniqueId card)) := card]> ex
            else ex) !! uid_key u).
    { repeat case_match; by rewrite ?(lookup_insert_ne _ (num_key _ _)),
        ?(lookup_insert_ne _ (name_key _ _)) by done. }
    destruct (c_uniqueId card) as [v|] eqn:Hv; simpl.
    + destruct (Py.truthy_str v) eqn:Htv.
      * apply truthy_str_true in Htv.
        destruct (decide (v = u)) as [->|Hne].
        { rewrite lookup_insert_eq. by rewrite decide_True. }
        { rewrite lookup_insert_ne by (intros ?%uid_key_inj; done).
          rewrite decide_False; [done|]. intros (_ & _ & [= ?]); done. }
      * apply truthy_str_false in Htv. subst v.
        rewrite decide_False; [done|]. intros (_ & ? & [= ?]); done.
    + rewrite decide_False; [done|]. intros (_ & _ & ?); done.
  - apply truthy_str_false in Hn. rewrite decide_False; [done|].
    intros (? & _); done.
Qed.
End keys.

Lemma make_unique_id_None set_code card_num :
  set_code ≠ "" →
  make_unique_id set_code card_num = None
  ↔ card_num = None ∨ card_num = Some 0.
Proof.
  intros Hc%truthy_str_true. unfold make_unique_id, Py.truthy_int.
  destruct card_num as [n|]; [|naive_solver].
  rewrite Hc. destruct (Z.eqb_spec n 0); simpl; naive_solver.
Qed.

Lemma make_unique_id_Some set_code n :
  set_code ≠ "" → n ≠ 0 →
  make_unique_id set_code (Some n) = Some (set_code +:+ "-" +:+ Py.format_03d n).
Proof.
  intros Hc%truthy_str_true Hn. unfold make_unique_id, Py.truthy_int.
  rewrite Hc. by destruct (Z.eqb_spec n 0).
Qed.

(** C5, as the code has it: for a record with a set code, the unique id is
    the set code, a dash and the collector number padded to three digits
    when the number is present and not zero; it is absent exactly when the
    number is absent or zero.  A card without unique id skips the first
    strategy and is stored under no [uid:] key. *)
Theorem unique_code_rule (card : RawCard) :
  let set_code := default (rs_code (r_set card))
                    (SET_CODE_MAP !! rs_name (r_set card)) in
  let c := convert_card_to_app_format card in
  set_code ≠ "" →
  (∀ n, c_cardNumber c = Some n → n ≠ 0 →
     c_uniqueId c = Some (set_code +:+ "-" +:+ Py.format_03d n))
  ∧ (c_uniqueId c = None ↔ c_cardNumber c = None ∨ c_cardNumber c = Some 0)
  ∧ (∀ (x : Card) old st,
       Py.truthy_opt_str (c_uniqueId x) = false →
       strategy_unique_id old x st = st ∧ uid_lookup old x = None)
  ∧ (∀ (x : Card) ex u,
       Py.truthy_opt_str (c_uniqueId x) = false →
       index_card ex x !! uid_key u = ex !! uid_key u).
Proof.
  intros set_code c Hcode. split_and!.
  - intros n Hn Hn0. simpl in *. rewrite Hn. by apply make_unique_id_Some.
  - simpl. by apply make_unique_id_None.
  - intros x old st Hx. unfold strategy_unique_id, uid_lookup.
    destruct (c_uniqueId x) as [u|]; simpl in *; [|done]. by rewrite Hx.
  - intros x ex u Hx. rewrite index_card_uid.
    rewrite decide_False; [done|]. intros (_ & Hu & Hx').
    rewrite Hx' in Hx. simpl in Hx. by apply truthy_str_false in Hx.
Qed.

(** The theorem at the card numbered 007 of The First Chapter. *)
Lemma unique_code_rule_witness :
  let card := raw_card "Elsa" "Snow Queen" "The First Chapter" "1" "007" "Rare" in
  let c := convert_card_to_app_format card in
  default (rs_code (r_set card)) (SET_CODE_MAP !! rs_name (r_set card)) = "TFC"
  ∧ c_cardNumber c = Some 7
  ∧ c_uniqueId c = Some ("TFC" +:+ "-" +:+ Py.format_03d 7).
Proof.
  intros card c. split; [vm_compute; reflexivity|].
  split; [vm_compute; reflexivity|].
  assert (default (rs_code (r_set card)) (SET_CODE_MAP !! rs_name (r_set card)) ≠ "")
    as Hcode by (vm_compute; discriminate).
  apply (proj1 (unique_code_rule card Hcode) 7); [vm_compute; reflexivity|lia].
Defined.

(** C5 as stated fails: collector number zero is present, and the record
    gets no unique id. *)
Lemma zero_number_no_unique_code :
  let card := raw_card "Elsa" "Snow Queen" "The First Chapter" "1" "0" "Rare" in
  let c := convert_card_to_app_format card in
  default (rs_code (r_set card)) (SET_CODE_MAP !! rs_name (r_set card)) = "TFC"
  ∧ c_cardNumber c = Some 0
  ∧ c_uniqueId c = None
  ∧ c_uniqueId c ≠ Some ("TFC" +:+ "-" +:+ Py.format_03d 0).
Proof. vm_compute. split_and!; done. Qed.

(** ** Running again on the files just written *)

Section rerun.
Implicit Types (old ex : gmap string Card) (cs cards : list Card)
  (c d : Card) (m : gmap string MigrationEntry).

Lemma NoDup_fmap_eq {A B} (f : A → B) (l : list A) x y :
  NoDup (f <$> l) → x ∈ l → y ∈ l → f x = f y → x = y.
Proof.
  induction l as [|a l IH]; [by intros _ ?%elem_of_nil|].
  rewrite fmap_cons, NoDup_cons.
  intros [Ha Hl] [->|Hx]%elem_of_cons [->|Hy]%elem_of_cons Hf; [done|..].
  - destruct Ha. rewrite Hf. apply list_elem_of_fmap. eauto.
  - destruct Ha. rewrite <-Hf. apply list_elem_of_fmap. eauto.
  - by apply IH.
Qed.

Lemma load_existing_cards_concat (files : list (list Card)) :
  load_existing_cards files = foldl index_card ∅ (concat files).
Proof.
  unfold load_existing_cards. generalize (∅ : gmap string Card).
  induction files as [|l files IH]; intros ex; simpl; [done|].
  by rewrite foldl_app, IH.
Qed.

Lemma index_uid_lookup cards ex c u :
  c ∈ cards → c_name c ≠ "" → u ≠ "" → c_uniqueId c = Some u →
  (∀ d, d ∈ cards → c_uniqueId d = Some u → d = c) →
  foldl index_card ex cards !! uid_key u = Some c.
Proof.
  intros Hc Hn Hu Hcu. induction cards as [|d l IH] using rev_ind.
  { by apply elem_of_nil in Hc. }
  intros Huniq. rewrite foldl_app. simpl. rewrite index_card_uid.
  case_decide as Hd.
  - destruct Hd as (_ & _ & Hdu). f_equal. apply Huniq; [|done].
    apply elem_of_app. right. apply list_elem_of_here.
  - apply elem_of_app in Hc as [Hc|Hc%list_elem_of_singleton].
    + apply IH; [done|]. intros d' Hd'. apply Huniq.
      apply elem_of_app. by left.
    + subst d. destruct Hd. done.
Qed.

Lemma make_card_id_nonempty set_name card_num full_name variant :
  make_card_id set_name card_num full_name variant ≠ "".
Proof.
  unfold make_card_id.
  destruct (Py.replace " " "_" set_name) as [|a s]; cbv [String.append];
    discriminate.
Qed.

Lemma build_migration_map_self old cs :
  (∀ c, c ∈ cs → uid_lookup old c = Some c ∧ c_id c ≠ "") →
  ∀ c, c ∈ cs →
    ∃ e, build_migration_map old cs !! c_id c = Some e
         ∧ m_old_id e = c_id c ∧ m_new_id e = c_id c
         ∧ m_match_method e = "uniqueId".
Proof.
  unfold build_migration_map. generalize (∅ : gmap string MigrationEntry).
  induction cs as [|d l IH] using rev_ind; intros m Hall c Hc.
  { by apply elem_of_nil in Hc. }
  rewrite foldl_app. simpl.
  destruct (Hall d) as [Hd Hid].
  { apply elem_of_app. right. apply list_elem_of_here. }
  rewrite (migrate_card_found _ _ _ d) by (by rewrite ?find_old_cascade, ?Hd).
  destruct (decide (c_id d = c_id c)) as [Heq|Hne].
  - rewrite Heq, lookup_insert_eq. eexists. split; [done|]. simpl.
    split_and!; [done..|]. by eapply match_method_uid.
  - rewrite lookup_insert_ne by done.
    apply elem_of_app in Hc as [Hc|Hc%list_elem_of_singleton]; [|by subst].
    apply IH; [|done]. intros c' Hc'. apply Hall, elem_of_app. by left.
Qed.

Lemma elem_of_new_cards_converted rs c :
  c ∈ all_new_cards_of (set_files (group_cards rs).1) →
  ∃ r, r ∈ rs ∧ c = convert_card_to_app_format r.
Proof.
  intros (s & cards & Hs & Hc%elem_of_dedup)%elem_of_all_new_cards.
  by destruct (elem_of_group_cards _ _ _ _ Hs Hc) as (_ & _ & ?).
Qed.

End rerun.

(** C1, as the code has it: when the cards found in the data directory are
    the cards written by a run, in any order of the files, and every card
    written has a name and a unique id that no other card shares, a second
    run on the same raw input writes the same catalogs and its migration
    map sends the id of every card to itself with method [uniqueId]. *)
Theorem idempotent_rerun (snapshot files : list (list Card))
    (rs : list RawCard) (run : Run) :
  download_and_convert snapshot rs = Some run →
  concat files ≡ₚ new_cards_of_run run →
  Forall (λ c, c_name c ≠ "" ∧ Py.truthy_opt_str (c_uniqueId c) = true)
    (new_cards_of_run run) →
  NoDup (c_uniqueId <$> new_cards_of_run run) →
  ∃ run',
    download_and_convert files rs = Some run'
    ∧ run_files run' = run_files run
    ∧ Forall (λ c, ∃ e, run_migration run' !! c_id c = Some e
                        ∧ m_old_id e = c_id c ∧ m_new_id e = c_id c
                        ∧ m_match_method e = "uniqueId")
        (new_cards_of_run run').
Proof.
  unfold download_and_convert, new_cards_of_run.
  destruct rs as [|r0 rs]; [done|].
  destruct (group_cards (r0 :: rs)) as [cards_by_set set_counts] eqn:Hg.
  intros [= <-]. cbn [run_files run_migration].
  set (cs := all_new_cards_of (set_files cards_by_set)).
  intros Hfiles Hall Hnodup.
  eexists. split; [reflexivity|]. cbn [run_files run_migration].
  split; [reflexivity|]. fold cs.
  apply Forall_forall. apply build_migration_map_self.
  intros c Hc. rewrite Forall_forall in Hall.
  destruct (Hall c Hc) as [Hname Huid].
  destruct (c_uniqueId c) as [u|] eqn:Hcu; [|done]. simpl in Huid.
  apply truthy_str_true in Huid. split.
  - unfold uid_lookup. rewrite Hcu.
    apply truthy_str_true in Huid. rewrite Huid.
    apply truthy_str_true in Huid.
    rewrite load_existing_cards_concat.
    pose proof Hfiles as Hperm.
    apply index_uid_lookup; [by rewrite Hperm|done..|].
    intros d Hd Hdu. rewrite Hperm in Hd.
    apply (NoDup_fmap_eq c_uniqueId cs); [done..|congruence].
  - assert (∃ r, r ∈ r0 :: rs ∧ c = convert_card_to_app_format r)
      as (r & _ & ->).
    { apply elem_of_new_cards_converted. by rewrite Hg. }
    apply make_card_id_nonempty.
Qed.

(** The theorem at a run of three cards in two sets. *)
Lemma idempotent_rerun_witness :
  let rs := [raw_card "Elsa" "Snow Queen" "The First Chapter" "1" "001" "Rare";
             raw_card "Anna" "" "The First Chapter" "1" "2" "Enchanted";
             raw_card "Stitch" "" "Promo Set 1" "P1" "7" "Promo"] in
  ∃ run,
    download_and_convert [] rs = Some run
    ∧ ∃ run',
        download_and_convert (directory_after run) rs = Some run'
        ∧ run_files run' = run_files run
        ∧ Forall (λ c, ∃ e, run_migration run' !! c_id c = Some e
                            ∧ m_old_id e = c_id c ∧ m_new_id e = c_id c
                            ∧ m_match_method e = "uniqueId")
            (new_cards_of_run run').
Proof.
  intros rs.
  destruct (download_and_convert [] rs) as [run|] eqn:Hrun;
    [|by vm_compute in Hrun].
  exists run. split; [done|].
  apply (idempotent_rerun [] _ rs run Hrun);
    vm_compute in Hrun; injection Hrun as <-; [reflexivity|..].
  - apply (bool_decide_unpack _). vm_compute. reflexivity.
  - apply (bool_decide_unpack _). vm_compute. reflexivity.
Defined.

(** C1 as stated fails: a card whose collector number is not numeric has no
    unique id; run again on its own output, it is matched by name and set
    and its entry is labelled [name+set]. *)
Lemma rerun_without_unique_code :
  let rs := [raw_card "Elsa" "Snow Queen" "The First Chapter" "1" "12a" "Rare"] in
  ∃ run run',
    download_and_convert [] rs = Some run
    ∧ download_and_convert (directory_after run) rs = Some run'
    ∧ Exists (λ c, ∃ e, run_migration run' !! c_id c = Some e
                        ∧ m_old_id e = c_id c ∧ m_new_id e = c_id c
                        ∧ m_match_method e = "name+set"
                        ∧ m_match_method e ≠ "uniqueId")
        (new_cards_of_run run').
Proof.
  do 2 eexists. split; [vm_compute; reflexivity|].
  split; [vm_compute; reflexivity|].
  apply Exists_cons_hd. eexists.
  split_and!; [vm_compute; reflexivity..|vm_compute; discriminate].
Qed.

(** Two cards of one set with the same collector number share a unique id;
    run again, both are matched to the one stored last and the id of the
    other has no entry. *)
Lemma rerun_shared_unique_code :
  let rs := [raw_card "Elsa" "" "The First Chapter" "1" "1" "Rare";
             raw_card "Anna" "" "The First Chapter" "1" "1" "Rare"] in
  ∃ run run',
    download_and_convert [] rs = Some run
    ∧ download_and_convert (directory_after run) rs = Some run'
    ∧ Exists (λ c, run_migration run' !! c_id c = None) (new_cards_of_run run').
Proof.
  do 2 eexists. split; [vm_compute; reflexivity|].
  split; [vm_compute; reflexivity|].
  apply Exists_cons_hd. vm_compute. reflexivity.
Qed.

(** A card without a name is not stored in the index at all; run again, its
    id has no entry although it has a unique id. *)
Lemma rerun_nameless_card :
  let rs := [raw_card "" "" "The First Chapter" "1" "3" "Rare"] in
  ∃ run run',
    download_and_convert [] rs = Some run
    ∧ download_and_convert (directory_after run) rs = Some run'
    ∧ Exists (λ c, c_uniqueId c = Some "TFC-003"
                   ∧ run_migration run' !! c_id c = None)
        (new_cards_of_run run').
Proof.
  do 2 eexists. split; [vm_compute; reflexivity|].
  split; [vm_compute; reflexivity|].
  apply Exists_cons_hd. vm_compute. split; reflexivity.
Qed.

(** ** Entity ids *)

Section strings.
Implicit Types (s t : string) (a : ascii).

Lemma string_app_cons a s t : String a s +:+ t = String a (s +:+ t).
Proof. done. Qed.

Lemma string_app_nil s : "" +:+ s = s.
Proof. done. Qed.

Lemma string_app_assoc s1 s2 s3 : (s1 +:+ s2) +:+ s3 = s1 +:+ s2 +:+ s3.
Proof.
  induction s1 as [|a s1 IH]; [done|]. by rewrite !string_app_cons, IH.
Qed.

Lemma string_app_length s t :
  String.length (s +:+ t) = (String.length s + String.length t)%nat.
Proof.
  induction s as [|a s IH]; [done|].
  rewrite string_app_cons. simpl. by rewrite IH.
Qed.

Lemma string_app_inv_r s1 s2 t : s1 +:+ t = s2 +:+ t → s1 = s2.
Proof.
  revert s2. induction s1 as [|c s1 IH]; intros [|d s2];
    rewrite ?string_app_cons, ?string_app_nil; [done|..].
  - intros H%(f_equal String.length). simpl in H.
    rewrite string_app_length in H. lia.
  - intros H%(f_equal String.length). simpl in H.
    rewrite string_app_length in H. lia.
  - intros [= -> H]. by rewrite (IH _ H).
Qed.

(** Two strings cut at their first occurrence of [a]. *)
Lemma split_at_first a s1 s2 t1 t2 :
  has_char a s1 = false → has_char a s2 = false →
  s1 +:+ String a t1 = s2 +:+ String a t2 → s1 = s2 ∧ t1 = t2.
Proof.
  revert s2. induction s1 as [|c s1 IH]; intros [|d s2];
    rewrite ?string_app_cons, ?string_app_nil; simpl.
  - intros _ _ [= ->]. done.
  - intros _ [Hd _]%orb_false_elim [= <- _].
    by apply bool_decide_eq_false in Hd.
  - intros [Hc _]%orb_false_elim _ [= -> _].
    by apply bool_decide_eq_false in Hc.
  - intros [_ H1]%orb_false_elim [_ H2]%orb_false_elim. intros [= -> H].
    destruct (IH _ H1 H2 H) as [-> ->]. done.
Qed.

Lemma app_prefix s1 s2 t1 t2 :
  s1 +:+ t1 = s2 +:+ t2 →
  String.prefix s1 s2 = true ∨ String.prefix s2 s1 = true.
Proof.
  revert s2. induction s1 as [|c s1 IH]; intros [|d s2];
    rewrite ?string_app_cons, ?string_app_nil; simpl; auto.
  intros [= -> H].
  destruct (ascii_dec d d); [|done]. by apply IH in H.
Qed.

Lemma has_char_pretty_N_go a x s :
  (∀ d, (d < 10)%N → pretty_N_char d ≠ a) →
  has_char a (pretty_N_go x s) = has_char a s.
Proof.
  intros Ha. revert s. induction (N.lt_wf_0 x) as [x _ IH]; intros s.
  assert (x = 0 ∨ 0 < x)%N as [->|?] by lia.
  - by rewrite pretty_N_go_0.
  - rewrite pretty_N_go_step by done. rewrite IH by (by apply N.div_lt).
    simpl. rewrite bool_decide_eq_false_2; [done|].
    apply Ha. by apply N.mod_lt.
Qed.

Lemma str_no_underscore (n : Z) : has_char "_" (Py.str n) = false.
Proof.
  assert (∀ d, (d < 10)%N → pretty_N_char d ≠ "_"%char) as Hd.
  { intros d _. unfold pretty_N_char. by repeat case_match. }
  assert (∀ p : positive, has_char "_" (pretty p) = false) as Hp.
  { intros p. unfold pretty, pretty_positive, pretty, pretty_N.
    case_decide; [done|]. by rewrite has_char_pretty_N_go. }
  unfold Py.str, pretty, pretty_Z. destruct n as [|p|p]; [done|apply Hp|].
  rewrite string_app_cons. simpl. apply Hp.
Qed.

Lemma variant_suffix_inj v1 v2 :
  variant_suffix v1 = variant_suffix v2 → v1 = v2.
Proof.
  unfold variant_suffix.
  repeat case_decide; subst; rewrite ?string_app_cons, ?string_app_nil;
    intros Heq; by simplify_eq.
Qed.
End strings.

Section entity_id.
Implicit Types (set_name full_name variant : string) (card_num : option Z).

Lemma make_card_id_same_set set_name n1 n2 f1 f2 v1 v2 :
  make_card_id set_name n1 f1 v1 = make_card_id set_name n2 f2 v2
  ↔ Py.int_or n1 0 = Py.int_or n2 0
    ∧ name_part_of f1 +:+ variant_suffix v1
      = name_part_of f2 +:+ variant_suffix v2.
Proof.
  unfold make_card_id. rewrite !string_app_assoc. split.
  - intros H%(inj (String.app _)). rewrite !string_app_cons in H.
    injection H as H. rewrite ?string_app_nil in H.
    apply split_at_first in H as [Hn H]; [|apply str_no_underscore..].
    split; [|done]. by apply (inj pretty) in Hn.
  - intros [-> ->]. done.
Qed.

Lemma make_card_id_prefix s1 s2 n1 n2 f1 f2 v1 v2 :
  make_card_id s1 n1 f1 v1 = make_card_id s2 n2 f2 v2 →
  String.prefix (Py.replace " " "_" s1) (Py.replace " " "_" s2) = true
  ∨ String.prefix (Py.replace " " "_" s2) (Py.replace " " "_" s1) = true.
Proof.
  unfold make_card_id. rewrite !string_app_assoc. apply app_prefix.
Qed.
End entity_id.

(** C2, as the code has it: the id is the sanitized set name, the
    collector number (absent read as zero) and the sanitized name followed
    by the variant suffix, joined by underscores.  Equal tuples give equal
    ids.  Within one set, two ids are equal exactly when the numbers are
    equal and the sanitized names followed by their variant suffixes are
    equal; with equal variants, exactly when the numbers and the sanitized
    names are equal; cards of one set that agree on number and sanitized
    name and differ in variant get different ids.  Cards whose sanitized
    set names are not prefixes of one another get different ids. *)
Theorem entity_id_injectivity (r1 r2 : RawCard) :
  let c1 := convert_card_to_app_format r1 in
  let c2 := convert_card_to_app_format r2 in
  let num c := default 0 (c_cardNumber c) in
  let token c := name_part_of (c_name c) in
  let set_token c := Py.replace " " "_" (c_setName c) in
  let tail c := token c +:+ variant_suffix (c_variant c) in
  c_id c1 = set_token c1 +:+ "_" +:+ Py.str (num c1) +:+ "_" +:+ tail c1
  ∧ (card_tuple c1 = card_tuple c2 → c_id c1 = c_id c2)
  ∧ (c_setName c1 = c_setName c2 →
     (c_id c1 = c_id c2 ↔ num c1 = num c2 ∧ tail c1 = tail c2))
  ∧ (c_setName c1 = c_setName c2 → c_variant c1 = c_variant c2 →
     (c_id c1 = c_id c2 ↔ num c1 = num c2 ∧ token c1 = token c2))
  ∧ (c_setName c1 = c_setName c2 → num c1 = num c2 → token c1 = token c2 →
     c_variant c1 ≠ c_variant c2 → c_id c1 ≠ c_id c2)
  ∧ (String.prefix (set_token c1) (set_token c2) = false →
     String.prefix (set_token c2) (set_token c1) = false →
     c_id c1 ≠ c_id c2).
Proof.
  intros c1 c2 num token set_token tail.
  assert (∀ r, c_id (convert_card_to_app_format r)
               = make_card_id (c_setName (convert_card_to_app_format r))
                   (c_cardNumber (convert_card_to_app_format r))
                   (c_name (convert_card_to_app_format r))
                   (c_variant (convert_card_to_app_format r))) as Hid by done.
  unfold tail, c1, c2, num, token, set_token. rewrite !Hid, <-!int_or_0.
  generalize (convert_card_to_app_format r1) (convert_card_to_app_format r2).
  clear. intros c1 c2. split_and!.
  - unfold make_card_id. by rewrite !string_app_assoc.
  - unfold card_tuple. by intros [= -> -> -> ->].
  - intros ->. apply make_card_id_same_set.
  - intros -> ->. rewrite make_card_id_same_set. split.
    + intros [? ?%string_app_inv_r]. done.
    + by intros [-> ->].
  - intros -> Hn Ht Hv. rewrite make_card_id_same_set, Hn, Ht.
    intros [_ H%(inj (String.app _))]. by apply variant_suffix_inj in H.
  - intros H1 H2 H%make_card_id_prefix. rewrite H1, H2 in H. by destruct H.
Qed.

(** The theorem at two versions of one character in one set. *)
Lemma entity_id_injectivity_witness :
  let c1 := convert_card_to_app_format
              (raw_card "Elsa" "Snow Queen" "The First Chapter" "1" "1" "Rare") in
  let c2 := convert_card_to_app_format
              (raw_card "Elsa" "Spirit of Winter" "The First Chapter" "1" "1" "Rare") in
  c_setName c1 = c_setName c2 ∧ c_variant c1 = c_variant c2
  ∧ name_part_of (c_name c1) ≠ name_part_of (c_name c2)
  ∧ c_id c1 ≠ c_id c2.
Proof.
  intros c1 c2.
  assert (c_setName c1 = c_setName c2) as Hs by (vm_compute; reflexivity).
  assert (c_variant c1 = c_variant c2) as Hv by (vm_compute; reflexivity).
  assert (name_part_of (c_name c1) ≠ name_part_of (c_name c2)) as Hn
    by (vm_compute; discriminate).
  split_and!; [done..|].
  intros Hid.
  apply (proj1 (proj2 (proj2 (proj2 (entity_id_injectivity _ _)))) Hs Hv)
    in Hid as [_ Hid].
  by apply Hn.
Defined.

(** Within one set, a variant tag at the end of a name is read as the
    variant: the two tuples differ in name, variant and sanitized name, and
    the ids are equal. *)
Lemma variant_in_name_collides :
  let c1 := convert_card_to_app_format
              (raw_card "Elsa" "" "The First Chapter" "1" "5" "Enchanted") in
  let c2 := convert_card_to_app_format
              (raw_card "Elsa Enchanted" "" "The First Chapter" "1" "5" "Rare") in
  c_setName c1 = c_setName c2 ∧ c_variant c1 ≠ c_variant c2
  ∧ name_part_of (c_name c1) ≠ name_part_of (c_name c2)
  ∧ c_id c1 = c_id c2.
Proof. vm_compute. split_and!; (reflexivity || discriminate). Qed.

(** Across sets, the end of a set name is read as the number. *)
Lemma set_name_and_number_collide :
  let c1 := convert_card_to_app_format (raw_card "B" "" "A 1" "1" "2" "Rare") in
  let c2 := convert_card_to_app_format (raw_card "2 B" "" "A" "1" "1" "Rare") in
  c_setName c1 ≠ c_setName c2 ∧ c_id c1 = c_id c2.
Proof. vm_compute. split; [discriminate|reflexivity]. Qed.

(** C2 as stated fails: two names that differ by an apostrophe give
    different tuples and the same id. *)
Lemma entity_id_collision :
  let c1 := convert_card_to_app_format
              (raw_card "Peter Pan's Shadow" "" "The First Chapter" "1" "12" "Rare") in
  let c2 := convert_card_to_app_format
              (raw_card "Peter Pans Shadow" "" "The First Chapter" "1" "12" "Rare") in
  card_tuple c1 ≠ card_tuple c2 ∧ c_id c1 = c_id c2.
Proof. vm_compute. split; [discriminate|reflexivity]. Qed.

(** * Further properties *)

(** ** The index and the matches *)

Section index_keys.
Implicit Types (ex : gmap string Card) (c card : Card) (k u s : string).

Lemma truthy_int_true n : Py.truthy_int n = true ↔ n ≠ 0.
Proof. unfold Py.truthy_int. destruct (Z.eqb_spec n 0); naive_solver. Qed.

Lemma str_lacks_char (a : ascii) (n : Z) :
  a ≠ "-"%char → (∀ d, pretty_N_char d ≠ a) → has_char a (Py.str n) = false.
Proof.
  intros Hdash Hdigit.
  assert (∀ x, has_char a (pretty_N_go x "") = false) as Hgo.
  { intros x. by rewrite has_char_pretty_N_go by auto. }
  assert (∀ p : positive, has_char a (pretty p) = false) as Hpos.
  { intros p. unfold pretty, pretty_positive, pretty, pretty_N.
    case_decide; [done|]. apply Hgo. }
  unfold Py.str, pretty, pretty_Z. destruct n as [|p|p].
  - cbn [has_char]. rewrite bool_decide_eq_false_2; [done|]. apply (Hdigit 0%N).
  - apply Hpos.
  - rewrite string_app_cons, string_app_nil. cbn [has_char].
    rewrite bool_decide_eq_false_2 by congruence. apply Hpos.
Qed.

Lemma str_no_bar (n : Z) : has_char "|" (Py.str n) = false.
Proof.
  apply str_lacks_char; [done|]. intros d. unfold pretty_N_char.
  by repeat case_match.
Qed.

Lemma num_key_inj n s n' s' : num_key n s = num_key n' s' → n = n' ∧ s = s'.
Proof.
  unfold num_key. intros H%(inj (String.app "num:")).
  rewrite <-!string_app_assoc in H.
  change ("|set:") with (String "|" "set:") in H.
  rewrite !(string_app_assoc _ (String "|" "set:")) in H.
  rewrite !string_app_cons in H.
  apply split_at_first in H as [Hn Hs]; [|apply str_no_bar..].
  split; [by apply (inj pretty) in Hn|]. by apply (inj (String.app "set:")) in Hs.
Qed.

Lemma name_key_inj n s n' s' :
  has_char "|" n = false → has_char "|" n' = false →
  name_key n s = name_key n' s' → n = n' ∧ s = s'.
Proof.
  unfold name_key. intros Hn Hn' H%(inj (String.app "name:")).
  change ("|set:") with (String "|" "set:") in H.
  rewrite !string_app_cons in H.
  apply split_at_first in H as [-> Hs]; [|done..].
  split; [done|]. by apply (inj (String.app "set:")) in Hs.
Qed.

Lemma name_key_ne_num_key n s n' s' : name_key n s ≠ num_key n' s'.
Proof. unfold name_key, num_key. cbv [String.append]. discriminate. Qed.

Lemma index_card_lookup_inv ex card k c :
  index_card ex card !! k = Some c →
  ex !! k = Some c ∨ (c = card ∧ c_name c ≠ "" ∧ own_key k c).
Proof.
  unfold index_card, own_key.
  destruct (Py.truthy_str (c_name card)) eqn:Hn; simpl; [|by left].
  apply truthy_str_true in Hn.
  destruct (c_cardNumber card) as [n|] eqn:Hnum;
    [destruct (Py.truthy_int n) eqn:Htn|];
    destruct (Py.truthy_str (c_setName card)) eqn:Hset;
    destruct (c_uniqueId card) as [u|] eqn:Hu; simpl;
    try destruct (Py.truthy_str u) eqn:Htu; simpl;
    rewrite ?truthy_str_true, ?truthy_int_true in *;
    intros Hl;
    repeat (apply lookup_insert_Some in Hl as [[<- <-]|[_ Hl]];
            [right; split_and!; [done..|]; naive_solver|]); by left.
Qed.

Lemma foldl_index_card_lookup_inv cards ex k c :
  foldl index_card ex cards !! k = Some c →
  ex !! k = Some c ∨ (c ∈ cards ∧ c_name c ≠ "" ∧ own_key k c).
Proof.
  revert ex. induction cards as [|d l IH]; intros ex; simpl; [by left|].
  intros [Hl|(? & ? & ?)]%IH.
  - apply index_card_lookup_inv in Hl as [?|(-> & ? & ?)]; [by left|].
    right. split_and!; [apply list_elem_of_here|done..].
  - right. split_and!; [by apply list_elem_of_further|done..].
Qed.
End index_keys.

(** Every value of the index is a card of the files that has a name, stored
    under one of its own keys. *)
Theorem index_provenance (files : list (list Card)) (k : string) (c : Card) :
  load_existing_cards files !! k = Some c →
  c ∈ concat files ∧ c_name c ≠ "" ∧ own_key k c.
Proof.
  rewrite load_existing_cards_concat.
  intros [Hl|?]%foldl_index_card_lookup_inv; [|done].
  by rewrite lookup_empty in Hl.
Qed.

Section soundness.
Implicit Types (files : list (list Card)) (new o : Card).

Lemma own_key_uid u c :
  own_key (uid_key u) c → c_uniqueId c = Some u ∧ u ≠ "".
Proof.
  intros [(v & Hv & Hne & ->%uid_key_inj)|[[_ H]|(n & _ & _ & _ & H)]].
  - done.
  - by apply uid_key_ne_name_key in H.
  - by apply uid_key_ne_num_key in H.
Qed.

Lemma own_key_num n s c :
  own_key (num_key n s) c → c_cardNumber c = Some n ∧ c_setName c = s ∧ n ≠ 0.
Proof.
  intros [(v & _ & _ & H)|[[_ H]|(n' & Hn & Hne & _ & [-> ->]%num_key_inj)]].
  - by apply eq_sym, uid_key_ne_num_key in H.
  - by apply eq_sym, name_key_ne_num_key in H.
  - done.
Qed.

Lemma own_key_name n s c :
  has_char "|" n = false → has_char "|" (c_name c) = false →
  own_key (name_key n s) c → c_name c = n ∧ c_setName c = s.
Proof.
  intros Hn Hc [(v & _ & _ & H)|[[_ H]|(n' & _ & _ & _ & H)]].
  - by apply eq_sym, uid_key_ne_name_key in H.
  - by apply name_key_inj in H as [-> ->].
  - by apply name_key_ne_num_key in H.
Qed.
End soundness.

(** A hit of the first strategy is a named card of the snapshot with the
    unique id of the new card. *)
Theorem uid_match_sound files new o :
  uid_lookup (load_existing_cards files) new = Some o →
  o ∈ concat files ∧ c_name o ≠ "" ∧ c_uniqueId o = c_uniqueId new.
Proof.
  unfold uid_lookup. destruct (c_uniqueId new) as [u|]; [|done].
  destruct (Py.truthy_str u); [|done].
  intros (? & ? & [-> _]%own_key_uid)%index_provenance. done.
Qed.

(** A hit of the third strategy is a named card of the snapshot with the
    collector number and the set name of the new card. *)
Theorem number_match_sound files new o :
  num_lookup (load_existing_cards files) new = Some o →
  o ∈ concat files ∧ c_name o ≠ ""
  ∧ c_cardNumber o = c_cardNumber new ∧ c_setName o = c_setName new.
Proof.
  unfold num_lookup. destruct (c_cardNumber new) as [n|]; [|done].
  destruct (Py.truthy_int n); [|done].
  intros (? & ? & (-> & -> & _)%own_key_num)%index_provenance. done.
Qed.

(** A hit of the second strategy has the name and the set name of the new
    card, when neither name contains the separator of the key. *)
Theorem name_match_sound files new o :
  has_char "|" (c_name new) = false → has_char "|" (c_name o) = false →
  name_lookup (load_existing_cards files) new = Some o →
  o ∈ concat files ∧ c_name o = c_name new ∧ c_setName o = c_setName new.
Proof.
  unfold name_lookup. intros Hn Ho (? & ? & Hk)%index_provenance.
  by apply own_key_name in Hk.
Qed.

(** Among the named cards of the snapshot that carry one unique id, the
    last in directory order is the one the index keeps. *)
Theorem uid_last_wins files (u : string) :
  u ≠ "" →
  load_existing_cards files !! uid_key u
  = last (filter (λ c, c_name c ≠ "" ∧ c_uniqueId c = Some u) (concat files)).
Proof.
  intros Hu. rewrite load_existing_cards_concat.
  induction (concat files) as [|d l IH] using rev_ind; [done|].
  rewrite foldl_app, filter_app. simpl. rewrite index_card_uid.
  case_decide as Hd.
  - destruct Hd as (? & _ & ?). rewrite filter_cons_True by done.
    rewrite filter_nil. by rewrite last_snoc.
  - rewrite filter_cons_False by naive_solver.
    by rewrite filter_nil, app_nil_r.
Qed.

Section entries.
Implicit Types (old : gmap string Card) (cs : list Card)
  (m : gmap string MigrationEntry).

Lemma migrate_card_lookup_inv old m c k e :
  migrate_card old m c !! k = Some e →
  m !! k = Some e ∨ (k ≠ "" ∧ entry_from old k e c).
Proof.
  unfold migrate_card. rewrite find_old_id.
  destruct (find_old old c).1 as [o|] eqn:Ho; simpl; [|by left].
  destruct (Py.truthy_str (c_id o)) eqn:Hid; [|by left].
  apply truthy_str_true in Hid.
  intros [[<- <-]|[_ ?]]%lookup_insert_Some; [|by left].
  right. split; [done|]. by exists o.
Qed.

Lemma foldl_migrate_card_lookup_inv old cs m k e :
  foldl (migrate_card old) m cs !! k = Some e →
  m !! k = Some e ∨ (k ≠ "" ∧ ∃ c, c ∈ cs ∧ entry_from old k e c).
Proof.
  revert m. induction cs as [|d l IH]; intros m; simpl; [by left|].
  intros [Hl|(? & c & ? & ?)]%IH.
  - apply migrate_card_lookup_inv in Hl as [?|[? ?]]; [by left|].
    right. split; [done|]. exists d. split; [apply list_elem_of_here|done].
  - right. split; [done|]. exists c. split; [by apply list_elem_of_further|done].
Qed.

Lemma foldl_migrate_card_size old cs m :
  (size (foldl (migrate_card old) m cs) ≤ size m + length cs)%nat.
Proof.
  revert m. induction cs as [|d l IH]; intros m; simpl; [lia|].
  etrans; [apply IH|].
  assert (size (migrate_card old m d) ≤ S (size m))%nat; [|lia].
  unfold migrate_card.
  destruct (find_old old d).2 as [k|]; [|lia].
  destruct (Py.truthy_str k); [|lia].
  destruct (m !! k) eqn:Hk.
  - rewrite map_size_insert_Some by eauto. lia.
  - rewrite map_size_insert_None by done. lia.
Qed.
End entries.

(** Every entry of the migration map is stored under the non-empty id of the
    old card found for some new card, and carries the fields of that new
    card. *)
Theorem entry_provenance (old : gmap string Card) (cs : list Card)
    (k : string) (e : MigrationEntry) :
  build_migration_map old cs !! k = Some e →
  k ≠ "" ∧ m_old_id e = k
  ∧ ∃ c o, c ∈ cs ∧ (find_old old c).1 = Some o ∧ c_id o = k
           ∧ m_new_id e = c_id c ∧ m_new_unique_id e = c_uniqueId c
           ∧ m_name e = c_name c ∧ m_set e = c_setName c
           ∧ m_variant e = c_variant c.
Proof.
  unfold build_migration_map.
  intros [Hl|(Hk & c & Hc & o & Ho & Hid & ->)]%foldl_migrate_card_lookup_inv.
  { by rewrite lookup_empty in Hl. }
  split; [done|]. split; [done|]. exists c, o. by split_and!.
Qed.

(** With no card in the snapshot, the migration map is empty. *)
Theorem first_run_empty_map (files : list (list Card)) (cs : list Card) :
  concat files = [] → build_migration_map (load_existing_cards files) cs = ∅.
Proof.
  intros Hf. rewrite load_existing_cards_concat, Hf. simpl.
  apply map_eq. intros k. rewrite lookup_empty.
  destruct (build_migration_map ∅ cs !! k) as [e|] eqn:He; [|done].
  apply entry_provenance in He as (_ & _ & c & o & _ & Ho & _).
  rewrite find_old_cascade in Ho.
  unfold uid_lookup, name_lookup, num_lookup in Ho.
  repeat case_match; by rewrite ?lookup_empty in *.
Qed.

(** ** The pipeline *)

Section more_duplicates.
Implicit Types (rs ds : list RawCard).

Lemma set_files_dups rs ds :
  (∀ d, d ∈ ds → d ∈ rs) →
  set_files (group_cards (rs ++ ds)).1 = set_files (group_cards rs).1
  ∧ size (group_cards (rs ++ ds)).1 = size (group_cards rs).1.
Proof.
  revert rs. induction ds as [|d ds IH]; intros rs Hds.
  { by rewrite app_nil_r. }
  change (d :: ds) with ([d] ++ ds). rewrite (assoc_L (++) rs [d] ds).
  destruct (IH (rs ++ [d])) as [-> ->].
  { intros d' Hd'. apply elem_of_app. left. apply Hds. by right. }
  apply set_files_dup, Hds. by left.
Qed.

Lemma download_and_convert_dups existing rs ds :
  (∀ d, d ∈ ds → d ∈ rs) →
  run_files <$> download_and_convert existing (rs ++ ds)
    = run_files <$> download_and_convert existing rs
  ∧ run_migration <$> download_and_convert existing (rs ++ ds)
    = run_migration <$> download_and_convert existing rs
  ∧ run_summary <$> download_and_convert existing (rs ++ ds)
    = run_summary <$> download_and_convert existing rs.
Proof.
  intros Hds. destruct (set_files_dups rs ds Hds) as [Hfiles Hsize].
  unfold download_and_convert.
  destruct (group_cards rs) as [m n] eqn:Hg.
  destruct (group_cards (rs ++ ds)) as [m' n'] eqn:Hg'.
  simpl in Hfiles, Hsize.
  destruct rs as [|r0 rs].
  { destruct ds as [|d ds]; [done|].
    exfalso. eapply elem_of_nil, Hds. by left. }
  simpl app. simpl. unfold summarize. by rewrite Hfiles, Hsize.
Qed.
End more_duplicates.

Section completeness.
Implicit Types (rs : list RawCard) (r : RawCard) (c : Card).

Lemma dedup_keeps_id cards c :
  c ∈ cards → ∃ c0, c0 ∈ dedup cards ∧ c_id c0 = c_id c
    ∧ head (filter (λ x, c_id x = c_id c) cards) = Some c0.
Proof.
  intros Hc.
  pose proof (dedup_from_filter ∅ cards (c_id c)) as Hf.
  rewrite decide_False in Hf by set_solver. rewrite <-dedup_unfold in Hf.
  destruct (filter (λ x, c_id x = c_id c) cards) as [|c0 l] eqn:Hl.
  { assert (c ∈ filter (λ x, c_id x = c_id c) cards) as Hin
      by (by apply list_elem_of_filter).
    rewrite Hl in Hin. by apply elem_of_nil in Hin. }
  simpl in Hf. exists c0.
  assert (c0 ∈ filter (λ x, c_id x = c_id c) (dedup cards)) as Hin.
  { rewrite Hf. apply list_elem_of_here. }
  apply list_elem_of_filter in Hin as [? ?]. done.
Qed.
End completeness.

(** Every record with a set name is represented in the catalog of its set
    by the first card of that set with its id. *)
Theorem every_record_represented (rs : list RawCard) (r : RawCard) :
  r ∈ rs → rs_name (r_set r) ≠ "" →
  ∃ f c, f ∈ set_files (group_cards rs).1
       ∧ sd_setName f.2 = rs_name (r_set r)
       ∧ c ∈ sd_cards f.2
       ∧ c_id c = c_id (convert_card_to_app_format r)
       ∧ head (filter (λ x, c_id x = c_id c) (cards_of_set (rs_name (r_set r)) rs))
         = Some c.
Proof.
  intros Hr Hs.
  set (s := rs_name (r_set r)).
  assert (convert_card_to_app_format r ∈ cards_of_set s rs) as Hc.
  { apply elem_of_cards_of_set. split; [done|]. eauto. }
  assert ((group_cards rs).1 !! s = Some (cards_of_set s rs)) as Hg.
  { rewrite group_cards_lookup. rewrite decide_False; [done|].
    intros [?| Hnil]; [done|]. rewrite Hnil in Hc. by apply elem_of_nil in Hc. }
  destruct (dedup_keeps_id _ _ Hc) as (c0 & Hc0 & Hid & Hhead).
  exists (write_set s (cards_of_set s rs)), c0. split_and!.
  - apply elem_of_set_files. eauto.
  - done.
  - by apply elem_of_write_set.
  - done.
  - by rewrite Hid.
Qed.

(** The files are written in ascending order of set name, one per set name
    that occurs in the input, none for the empty name, each under the file
    name of its set. *)
Theorem files_sorted_by_set (rs : list RawCard) :
  let names := (λ f, sd_setName f.2) <$> set_files (group_cards rs).1 in
  Sorted String.le names ∧ NoDup names
  ∧ (∀ s, s ∈ names ↔ s ≠ "" ∧ ∃ r, r ∈ rs ∧ rs_name (r_set r) = s)
  ∧ (λ f, f.1) <$> set_files (group_cards rs).1 = set_filename <$> names.
Proof.
  intros names.
  assert (names = merge_sort String.le (elements (dom (group_cards rs).1))) as Hn.
  { unfold names, set_files, sorted_items. rewrite <-!list_fmap_compose.
    rewrite <-(list_fmap_id (merge_sort _ _)) at 2.
    by apply list_fmap_ext. }
  split_and!.
  - rewrite Hn. apply Sorted_merge_sort. apply _.
  - rewrite Hn, merge_sort_Permutation. apply NoDup_elements.
  - intros s. rewrite Hn, elem_of_sorted_keys, group_cards_lookup.
    case_decide as Hd.
    + split; [by intros [? ?]|]. intros [Hs (r & Hr & Hrs)].
      destruct Hd as [?|Hd]; [done|].
      assert (convert_card_to_app_format r ∈ cards_of_set s rs) as Hc.
      { apply elem_of_cards_of_set. split; [done|]. eauto. }
      rewrite Hd in Hc. by apply elem_of_nil in Hc.
    + split; [|eauto]. intros _. split; [naive_solver|].
      destruct (cards_of_set s rs) as [|c l] eqn:Hl; [naive_solver|].
      assert (c ∈ cards_of_set s rs) as Hc by (rewrite Hl; apply list_elem_of_here).
      apply elem_of_cards_of_set in Hc as [Hs (r & Hr & ->)]. eauto.
  - unfold names, set_files. rewrite <-!list_fmap_compose.
    by apply list_fmap_ext.
Qed.

(** ** The fetch *)

Section network_properties.
Context {Net : Type}.
Variable fetch_sets : Net → option (list RawSet) * Net.
Variable fetch_cards : string → Net → option (list RawCard) * Net.

Lemma fetch_rarity_cards_fst url st :
  ∃ extra, (fetch_rarity_cards fetch_cards url st).1 = st.1 ++ extra
    ∧ extra = default [] (fetch_cards url st.2).1.
Proof.
  destruct st as [all net]. unfold fetch_rarity_cards. simpl.
  destruct (fetch_cards url net) as [[cards|] net']; simpl; eexists; split;
    try done. by rewrite app_nil_r.
Qed.

(** When the two requests by rarity return only cards that the requests by
    set returned already, they change neither the files, nor the migration
    map, nor the summary. *)
Theorem rarity_queries_add_nothing existing net sets net1 :
  fetch_sets net = (Some sets, net1) →
  let prints := foldl (fetch_set_cards fetch_cards) ([], net1) sets in
  let epic := default [] (fetch_cards epic_url prints.2).1 in
  let iconic :=
    default []
      (fetch_cards iconic_url (fetch_rarity_cards fetch_cards epic_url prints).2).1 in
  (∀ c, c ∈ epic ++ iconic → c ∈ prints.1) →
  run_files <$> fetch_and_convert fetch_sets fetch_cards existing net
    = run_files <$> download_and_convert existing prints.1
  ∧ run_migration <$> fetch_and_convert fetch_sets fetch_cards existing net
    = run_migration <$> download_and_convert existing prints.1
  ∧ run_summary <$> fetch_and_convert fetch_sets fetch_cards existing net
    = run_summary <$> download_and_convert existing prints.1.
Proof.
  intros Hsets prints epic iconic Hsub.
  unfold fetch_and_convert, fetch_all_cards_from_api. rewrite Hsets. simpl.
  fold prints.
  destruct (fetch_rarity_cards_fst iconic_url
              (fetch_rarity_cards fetch_cards epic_url prints))
    as (x2 & -> & Hx2).
  destruct (fetch_rarity_cards_fst epic_url prints) as (x1 & -> & Hx1).
  fold epic in Hx1. fold iconic in Hx2. subst x1 x2.
  rewrite <-(assoc_L (++)).
  by apply download_and_convert_dups.
Qed.
End network_properties.

(** ** The summary *)

Section summary.
Implicit Types (cs : list Card) (vc : gmap string nat) (v : string).

Lemma length_all_new_cards (written : list (string * SetData)) :
  length (all_new_cards_of written)
  = sum_list ((λ f, length (sd_cards f.2)) <$> written).
Proof.
  unfold all_new_cards_of. induction written as [|f l IH]; [done|].
  rewrite bind_cons, length_app, fmap_cons. simpl. by rewrite IH.
Qed.

Lemma length_set_files (m : gmap string (list Card)) :
  length (set_files m) = size m.
Proof.
  unfold set_files, sorted_items. rewrite !length_fmap.
  rewrite merge_sort_Permutation. by rewrite <-size_dom.
Qed.

Lemma set_files_card_count (m : gmap string (list Card)) :
  Forall (λ f, sd_cardCount f.2 = length (sd_cards f.2)) (set_files m).
Proof.
  apply Forall_forall. by intros f (s & cards & _ & ->)%elem_of_set_files.
Qed.

Lemma foldl_count_variant_lookup cs vc v :
  foldl count_variant vc cs !! v
  = match length (filter (λ c, c_variant c = v) cs) with
    | O => vc !! v
    | S n => Some (default 0 (vc !! v) + S n)%nat
    end.
Proof.
  revert vc. induction cs as [|c l IH]; intros vc; [done|].
  cbn [foldl]. rewrite IH. unfold count_variant.
  destruct (decide (c_variant c = v)) as [<-|Hne].
  - rewrite filter_cons_True by done. rewrite lookup_insert_eq. simpl.
    destruct (length _); f_equal; lia.
  - rewrite filter_cons_False by done. by rewrite lookup_insert_ne.
Qed.
End summary.

(** The figures of the summary: the total is the sum of the card counts of
    the files, the number of sets is the number of files, and neither the
    mappings nor the cards needing a local image exceed the total. *)
Theorem summary_figures existing (rs : list RawCard) (run : Run) :
  download_and_convert existing rs = Some run →
  let s := run_summary run in
  total_cards s = sum_list ((λ f, sd_cardCount f.2) <$> run_files run)
  ∧ sets_created s = length (run_files run)
  ∧ (migration_mappings s ≤ total_cards s)%nat
  ∧ (missing_images s ≤ total_cards s)%nat
  ∧ migration_mappings s = size (run_migration run).
Proof.
  unfold download_and_convert. destruct rs as [|r0 rs]; [done|].
  destruct (group_cards (r0 :: rs)) as [m n]. intros [= <-]. simpl.
  split_and!.
  - rewrite length_all_new_cards. f_equal.
    apply Forall_fmap_ext_1. eapply Forall_impl; [apply set_files_card_count|].
    by intros f ->.
  - by rewrite length_set_files.
  - unfold build_migration_map.
    etrans; [apply foldl_migrate_card_size|]. by rewrite map_size_empty.
  - apply length_filter.
  - done.
Qed.

(** The variant breakdown lists a variant exactly when a written card has
    it, with the number of such cards. *)
Theorem variant_breakdown existing (rs : list RawCard) (run : Run) (v : string) :
  download_and_convert existing rs = Some run →
  variant_counts (run_summary run) !! v
  = match length (filter (λ c, c_variant c = v) (new_cards_of_run run)) with
    | O => None
    | n => Some n
    end.
Proof.
  unfold download_and_convert, new_cards_of_run. destruct rs as [|r0 rs]; [done|].
  destruct (group_cards (r0 :: rs)) as [m n]. intros [= <-]. simpl.
  rewrite foldl_count_variant_lookup, lookup_empty. by destruct (length _).
Qed.

(** The count reported for a set after grouping is the number of fetched
    records of that set, duplicates included, and no file holds more cards
    than the count of its set. *)
Theorem set_counts_before_dedup existing (rs : list RawCard) (run : Run) :
  download_and_convert existing rs = Some run →
  (∀ s, run_set_counts run !! s
        = match length (filter (λ r, rs_name (r_set r) = s) rs) with
          | O => None
          | n => if decide (s = "") then None else Some n
          end)
  ∧ Forall (λ f, ∃ n, run_set_counts run !! sd_setName f.2 = Some n
                     ∧ (sd_cardCount f.2 ≤ n)%nat) (run_files run).
Proof.
  unfold download_and_convert. destruct rs as [|r0 rs]; [done|].
  destruct (group_cards (r0 :: rs)) as [m n] eqn:Hg. intros [= <-]. simpl.
  assert (m = (group_cards (r0 :: rs)).1) as -> by (by rewrite Hg).
  assert (n = (group_cards (r0 :: rs)).2) as -> by (by rewrite Hg).
  clear Hg. generalize (r0 :: rs). clear. intros rs.
  assert (∀ s, length (cards_of_set s rs)
               = length (filter (λ r, rs_name (r_set r) = s) rs)) as Hlen.
  { intros s. unfold cards_of_set. induction rs as [|r l IH]; [done|].
    rewrite fmap_cons.
    destruct (decide (rs_name (r_set r) = s)) as [Hs|Hs].
    - rewrite !filter_cons_True by done. simpl. by rewrite IH.
    - by rewrite !filter_cons_False. }
  split.
  - intros s. rewrite group_cards_counts, group_cards_lookup, <-Hlen.
    case_decide as Hd.
    + destruct Hd as [->| ->]; [|done]. by destruct (length _).
    + destruct (cards_of_set s rs) as [|c l]; [naive_solver|]. simpl.
      rewrite decide_False by naive_solver. done.
  - apply Forall_forall. intros f (s & cards & Hs & ->)%elem_of_set_files.
    simpl. rewrite group_cards_counts, Hs. simpl. eexists. split; [done|].
    rewrite sort_cards_Permutation, dedup_unfold.
    apply sublist_length, dedup_from_sublist.
Qed.

(** ** Writing again *)

Section writer_again.
Implicit Types (l cards : list Card) (c : Card) (seen : gset string).

Lemma insert_card_sorted c l : HdRel card_le c l → insert_card c l = c :: l.
Proof. destruct 1; simpl; [done|]. by rewrite decide_True. Qed.

Lemma sort_cards_sorted l : Sorted card_le l → sort_cards l = l.
Proof.
  induction 1 as [|c l Hs IH Hd]; [done|]. simpl. rewrite IH.
  by apply insert_card_sorted.
Qed.

Lemma card_le_refl c : card_le c c.
Proof. unfold card_le, key_le. right. split; [done|]. reflexivity. Qed.

Lemma insert_card_filter c l (k : Z * string) :
  filter (λ x, sort_key x = k) (insert_card c l)
  = filter (λ x, sort_key x = k) (c :: l).
Proof.
  induction l as [|d l IH]; simpl; [done|].
  case_decide as Hcd; [done|].
  destruct (decide (sort_key d = k)) as [Hd|Hd].
  - rewrite (filter_cons_True _ d) by done. rewrite IH.
    destruct (decide (sort_key c = k)) as [Hc|Hc].
    + destruct Hcd. unfold card_le. rewrite Hc, <-Hd. apply card_le_refl.
    + rewrite !(filter_cons_False _ c) by done. by rewrite filter_cons_True.
  - rewrite (filter_cons_False _ d) by done. rewrite IH.
    destruct (decide (sort_key c = k)) as [Hc|Hc].
    + rewrite !(filter_cons_True _ c) by done. by rewrite filter_cons_False.
    + rewrite !(filter_cons_False _ c) by done. by rewrite filter_cons_False.
Qed.
End writer_again.

(** Cards with the same sort key keep their relative order. *)
Theorem sort_is_stable (cards : list Card) (k : Z * string) :
  filter (λ c, sort_key c = k) (sort_cards cards)
  = filter (λ c, sort_key c = k) cards.
Proof.
  induction cards as [|c l IH]; [done|]. simpl.
  rewrite insert_card_filter.
  destruct (decide (sort_key c = k)).
  - rewrite !(filter_cons_True _ c) by done. by rewrite IH.
  - rewrite !(filter_cons_False _ c) by done. by rewrite IH.
Qed.

(** A written catalog is already deduplicated and ordered: written again
    from its own cards it is the same catalog. *)
Theorem written_catalog_is_fixed (set_name : string) (cards : list Card) :
  write_set set_name (sd_cards (write_set set_name cards).2)
  = write_set set_name cards.
Proof.
  unfold write_set. cbn [snd sd_cards].
  assert (sort_cards (dedup (sort_cards (dedup cards))) = sort_cards (dedup cards))
    as ->; [|done].
  rewrite (dedup_unfold (sort_cards _)), dedup_from_id.
  - apply sort_cards_sorted, sort_cards_Sorted.
  - rewrite sort_cards_Permutation, dedup_unfold. apply dedup_from_NoDup.
  - set_solver.
Qed.

(** ** Images and ids *)

Section images.
Lemma resolve_image_url_cascade (u : ImageUris) (unique_id : option string)
    (variant variant_raw : string) :
  resolve_image_url u unique_id variant variant_raw
  = match head (filter (λ s, s ≠ "")
                  [digital_large u; digital_normal u; digital_small u;
                   flat_large u; flat_normal u; flat_small u]) with
    | Some url => url
    | None =>
        match unique_id with
        | Some uid =>
            if Py.truthy_str uid
            then "local://" +:+ uid
                   +:+ (if decide (variant = "Normal") then "" else "-" +:+ variant_raw)
            else ""
        | None => ""
        end
    end.
Proof.
  unfold resolve_image_url, str_or.
  destruct u as [[|? ?] [|? ?] [|? ?] [|? ?] [|? ?] [|? ?]]; reflexivity.
Qed.

Lemma make_unique_id_truthy set_code card_num uid :
  make_unique_id set_code card_num = Some uid → Py.truthy_str uid = true.
Proof.
  unfold make_unique_id. destruct card_num as [n|]; [|done].
  destruct (Py.truthy_int n); [|done].
  destruct set_code as [|a s]; [done|]. simpl. by intros [= <-].
Qed.

Lemma variant_raw_is_lower set_name rarity_raw :
  variant_raw_of set_name rarity_raw
  = Py.lower (default "Normal" (VARIANT_MAP !! variant_raw_of set_name rarity_raw)).
Proof.
  pose proof (variant_raw_of_cases set_name rarity_raw) as H.
  rewrite !elem_of_cons, elem_of_nil in H.
  destruct H as [->|[->|[->|[->|[->|[]]]]]]; vm_compute; reflexivity.
Qed.
End images.

(** The image of a card is the first non-empty address among digital large,
    normal, small and flat large, normal, small; without any, it is the
    placeholder built from the unique id and the lower-case variant, or
    empty without unique id. *)
Theorem image_cascade (card : RawCard) :
  let u := r_image_uris card in
  let c := convert_card_to_app_format card in
  c_imageUrl c
  = match head (filter (λ s, s ≠ "")
                  [digital_large u; digital_normal u; digital_small u;
                   flat_large u; flat_normal u; flat_small u]) with
    | Some url => url
    | None =>
        match c_uniqueId c with
        | Some uid =>
            "local://" +:+ uid
              +:+ (if decide (c_variant c = "Normal") then ""
                   else "-" +:+ Py.lower (c_variant c))
        | None => ""
        end
    end.
Proof.
  intros u c. unfold c, convert_card_to_app_format. cbn [c_imageUrl c_uniqueId c_variant].
  rewrite resolve_image_url_cascade. fold u.
  destruct (head _); [done|].
  destruct (make_unique_id _ _) as [uid|] eqn:Huid; [|done].
  rewrite (make_unique_id_truthy _ _ _ Huid).
  by rewrite <-variant_raw_is_lower.
Qed.

Section id_chars.
Implicit Types (s t r : string) (a b : ascii).

Lemma has_char_app a s t : has_char a (s +:+ t) = has_char a s || has_char a t.
Proof.
  induction s as [|c s IH]; [done|].
  rewrite string_app_cons. simpl. by rewrite IH, orb_assoc.
Qed.

Lemma replace_cons a r c s :
  Py.replace a r (String c s)
  = if decide (c = a) then r +:+ Py.replace a r s else String c (Py.replace a r s).
Proof. done. Qed.

Lemma has_char_cons a c s :
  has_char a (String c s) = bool_decide (c = a) || has_char a s.
Proof. done. Qed.

Lemma has_char_replace_same a r s :
  has_char a r = false → has_char a (Py.replace a r s) = false.
Proof.
  intros Hr. induction s as [|c s IH]; [done|]. rewrite replace_cons.
  case_decide as Hc.
  - by rewrite has_char_app, Hr, IH.
  - rewrite has_char_cons, IH. by rewrite bool_decide_eq_false_2.
Qed.

Lemma has_char_replace_other a b r s :
  has_char a r = false → has_char a s = false →
  has_char a (Py.replace b r s) = false.
Proof.
  intros Hr. induction s as [|c s IH]; [done|].
  rewrite replace_cons, has_char_cons.
  intros [Hc Hs]%orb_false_elim. destruct (decide (c = b)).
  - by rewrite has_char_app, Hr, IH.
  - by rewrite has_char_cons, Hc, IH.
Qed.

Lemma str_no_space (n : Z) : has_char " " (Py.str n) = false.
Proof.
  apply str_lacks_char; [done|]. intros d. unfold pretty_N_char.
  by repeat case_match.
Qed.
End id_chars.

(** No card id contains a space. *)
Theorem id_has_no_space (card : RawCard) :
  has_char " " (c_id (convert_card_to_app_format card)) = false.
Proof.
  unfold convert_card_to_app_format. cbn [c_id]. unfold make_card_id.
  rewrite !has_char_app.
  rewrite has_char_replace_same by done. rewrite str_no_space.
  unfold name_part_of.
  rewrite has_char_replace_other; [|done|].
  2:{ apply has_char_replace_other; [done|]. by apply has_char_replace_same. }
  simpl.
  pose proof (variant_of_raw_cases _ (variant_raw_of_cases
    (rs_name (r_set card)) (Py.lower (default "" (r_rarity card))))) as H.
  rewrite !elem_of_cons, elem_of_nil in H.
  destruct H as [->|[->|[->|[->|[->|[]]]]]]; reflexivity.
Qed.

(** ** Reading numbers back *)

Section parse_format.
Implicit Types (s t u : string) (P : ascii → bool) (x : N) (n acc : Z).

Lemma all_chars_app P s t :
  all_chars P (s +:+ t) = all_chars P s && all_chars P t.
Proof.
  induction s as [|c s IH]; [done|].
  rewrite string_app_cons. simpl. by rewrite IH, andb_assoc.
Qed.

Lemma all_chars_rev_app P s t :
  all_chars P (String.rev_app s t) = all_chars P s && all_chars P t.
Proof.
  revert t. induction s as [|c s IH]; intros t; [done|]. simpl.
  rewrite IH. simpl. destruct (P c), (all_chars P s); simpl; done.
Qed.

Lemma rev_app_rev_app s t u :
  String.rev_app (String.rev_app s t) u = String.rev_app t (s +:+ u).
Proof.
  revert t. induction s as [|c s IH]; intros t; [done|]. simpl.
  rewrite IH. by rewrite string_app_cons.
Qed.

Lemma string_app_nil_r s : s +:+ "" = s.
Proof.
  induction s as [|c s IH]; [done|]. by rewrite string_app_cons, IH.
Qed.

Lemma rev_rev s : String.rev (String.rev s) = s.
Proof.
  unfold String.rev. rewrite rev_app_rev_app. simpl. apply string_app_nil_r.
Qed.

Lemma lstrip_no_space s :
  all_chars (λ c, negb (Py.is_space c)) s = true → Py.lstrip s = s.
Proof.
  destruct s as [|c s]; [done|]. simpl.
  intros [Hc _]%andb_prop. by destruct (Py.is_space c).
Qed.

Lemma strip_no_space s :
  all_chars (λ c, negb (Py.is_space c)) s = true → Py.strip s = s.
Proof.
  intros Hs. unfold Py.strip. rewrite (lstrip_no_space s) by done.
  rewrite lstrip_no_space; [apply rev_rev|].
  unfold String.rev. rewrite all_chars_rev_app. by rewrite Hs.
Qed.

Lemma all_chars_impl P (Q : ascii → bool) s :
  (∀ c, P c = true → Q c = true) → all_chars P s = true → all_chars Q s = true.
Proof.
  intros HPQ. induction s as [|c s IH]; [done|]. simpl.
  intros [Hc Hs]%andb_prop. by rewrite (HPQ c Hc), IH.
Qed.

Lemma digit_not_space c : is_digit_char c = true → negb (Py.is_space c) = true.
Proof.
  destruct c as [[] [] [] [] [] [] [] []]; vm_compute; congruence.
Qed.

Lemma int_of_digits s :
  all_chars is_digit_char s = true → Py.int s = Py.digits_go 0 true s.
Proof.
  intros Hs. unfold Py.int.
  rewrite strip_no_space by (eapply all_chars_impl; [apply digit_not_space|done]).
  destruct s as [|c s]; [done|]. simpl in Hs. apply andb_prop in Hs as [Hc _].
  destruct c as [[] [] [] [] [] [] [] []]; try reflexivity;
    vm_compute in Hc; discriminate.
Qed.

Lemma digit_pretty_N_char x :
  (x < 10)%N → Py.digit (pretty_N_char x) = Some (Z.of_N x).
Proof.
  intros Hx.
  assert (x = 0 ∨ x = 1 ∨ x = 2 ∨ x = 3 ∨ x = 4 ∨ x = 5 ∨ x = 6 ∨ x = 7
          ∨ x = 8 ∨ x = 9)%N as Hcases by lia.
  repeat (destruct Hcases as [->|Hcases]; [reflexivity|]). by subst.
Qed.

Lemma all_chars_pretty_N_go P x s :
  (∀ d, (d < 10)%N → P (pretty_N_char d) = true) →
  all_chars P (pretty_N_go x s) = all_chars P s.
Proof.
  intros HP. revert s. induction (N.lt_wf_0 x) as [x _ IH]; intros s.
  assert (x = 0 ∨ 0 < x)%N as [->|?] by lia.
  - by rewrite pretty_N_go_0.
  - rewrite pretty_N_go_step by done. rewrite IH by (by apply N.div_lt).
    simpl. rewrite HP; [done|]. by apply N.mod_lt.
Qed.

Lemma digits_go_pretty_N_go x need s :
  (0 < x)%N →
  Py.digits_go 0 need (pretty_N_go x s) = Py.digits_go (Z.of_N x) false s.
Proof.
  revert need s. induction (N.lt_wf_0 x) as [x _ IH]; intros need s Hx.
  rewrite pretty_N_go_step by done.
  destruct (N.eq_0_gt_0_cases (x `div` 10)) as [Hq|Hq].
  - rewrite Hq, pretty_N_go_0. simpl.
    rewrite digit_pretty_N_char by (by apply N.mod_lt). f_equal.
    pose proof (N.div_mod x 10 ltac:(lia)). lia.
  - rewrite IH by (done || by apply N.div_lt). simpl.
    rewrite digit_pretty_N_char by (by apply N.mod_lt). f_equal.
    pose proof (N.div_mod x 10 ltac:(lia)). lia.
Qed.

Lemma str_digits n : 0 ≤ n → all_chars is_digit_char (Py.str n) = true.
Proof.
  intros Hn. unfold Py.str, pretty, pretty_Z. destruct n as [|p|p]; [done| |lia].
  unfold pretty, pretty_positive, pretty, pretty_N. case_decide; [done|].
  rewrite all_chars_pretty_N_go; [done|].
  intros d Hd. unfold is_digit_char. by rewrite digit_pretty_N_char.
Qed.

Lemma digits_go_str n need :
  0 ≤ n → Py.digits_go 0 need (Py.str n) = Some n.
Proof.
  intros Hn. unfold Py.str, pretty, pretty_Z. destruct n as [|p|p]; [done| |lia].
  unfold pretty, pretty_positive, pretty, pretty_N. case_decide; [done|].
  by rewrite digits_go_pretty_N_go.
Qed.

Lemma digits_go_zeros k need t :
  Py.digits_go 0 need (Py.zeros k +:+ t)
  = Py.digits_go 0 (match k with O => need | S _ => false end) t.
Proof.
  revert need. induction k as [|k IH]; intros need; [done|].
  change (Py.zeros (S k) +:+ t) with (String "0" (Py.zeros k +:+ t)).
  simpl. rewrite IH. by destruct k.
Qed.

Lemma zeros_digits k : all_chars is_digit_char (Py.zeros k) = true.
Proof. induction k as [|k IH]; [done|]. simpl. by rewrite IH. Qed.
End parse_format.

(** The number written with three padded digits reads back as itself. *)
Theorem int_format_round_trip (n : Z) : Py.int (Py.format_03d n) = Some n.
Proof.
  unfold Py.format_03d.
  destruct (Z.ltb_spec n 0) as [Hn|Hn].
  - set (body := Py.zeros _ +:+ Py.str (Z.abs n)).
    assert (all_chars is_digit_char body = true) as Hbody.
    { unfold body. rewrite all_chars_app, zeros_digits, str_digits by lia. done. }
    rewrite string_app_cons, string_app_nil. unfold Py.int.
    rewrite strip_no_space.
    2:{ simpl. eapply all_chars_impl; [apply digit_not_space|done]. }
    unfold body. rewrite digits_go_zeros, digits_go_str by lia. simpl.
    f_equal. lia.
  - rewrite string_app_nil.
    rewrite int_of_digits
      by (rewrite all_chars_app, zeros_digits, str_digits by lia; done).
    rewrite digits_go_zeros, digits_go_str by lia. f_equal. lia.
Qed.

Lemma format_03d_inj n m : Py.format_03d n = Py.format_03d m → n = m.
Proof.
  intros H%(f_equal Py.int). rewrite !int_format_round_trip in H. congruence.
Qed.

Lemma make_unique_id_inj set_code n1 n2 u :
  make_unique_id set_code n1 = Some u → make_unique_id set_code n2 = Some u →
  n1 = n2.
Proof.
  unfold make_unique_id.
  destruct n1 as [n1|]; [|done]. destruct n2 as [n2|]; [|done].
  destruct (Py.truthy_int n1 && Py.truthy_str set_code); [|done].
  destruct (Py.truthy_int n2 && Py.truthy_str set_code); [|done].
  intros [= <-] [= H%(inj (String.app _))].
  rewrite !string_app_cons, !string_app_nil in H. injection H as H.
  by apply format_03d_inj in H as ->.
Qed.

(** For one set code, a unique id stands for one collector number. *)
Theorem unique_id_names_one_number (r1 r2 : RawCard) :
  let code r := default (rs_code (r_set r)) (SET_CODE_MAP !! rs_name (r_set r)) in
  let c1 := convert_card_to_app_format r1 in
  let c2 := convert_card_to_app_format r2 in
  code r1 = code r2 → is_Some (c_uniqueId c1) →
  c_uniqueId c1 = c_uniqueId c2 → c_cardNumber c1 = c_cardNumber c2.
Proof.
  intros code c1 c2 Hcode [u Hu] Heq. rewrite Hu in Heq.
  unfold c1, c2, convert_card_to_app_format in *.
  cbn [c_uniqueId c_cardNumber] in *.
  fold (code r1) in Hu. fold (code r2) in Heq. rewrite <-Hcode in Heq.
  by eapply make_unique_id_inj.
Qed.

Lemma length_zeros k : String.length (Py.zeros k) = k.
Proof. induction k as [|k IH]; [done|]. simpl. by rewrite IH. Qed.

(** The part of a unique id after the set code and the dash reads back, as
    an integer, as the collector number of the card. *)
Theorem unique_id_number_reads_back (card : RawCard) (u : string) :
  let set_code := default (rs_code (r_set card))
                    (SET_CODE_MAP !! rs_name (r_set card)) in
  let c := convert_card_to_app_format card in
  c_uniqueId c = Some u →
  ∃ t, u = set_code +:+ "-" +:+ t ∧ Py.int t = c_cardNumber c
       ∧ (3 ≤ String.length t)%nat.
Proof.
  intros set_code c. unfold c, convert_card_to_app_format.
  cbn [c_uniqueId c_cardNumber]. fold set_code.
  destruct (parse_card_num _) as [n|]; [|done]. unfold make_unique_id.
  destruct (Py.truthy_int n && Py.truthy_str set_code); [|done].
  intros [= <-]. exists (Py.format_03d n). split; [done|].
  split; [apply int_format_round_trip|].
  unfold Py.format_03d. rewrite !string_app_length, length_zeros. lia.
Qed.

(** ** The directory *)

Section directory.
Implicit Types (ex : gmap string Card) (elems : list (option Card))
  (entries : list (string * option (list (option Card)))).

Lemma index_elements_prefix ex elems :
  index_elements ex elems = foldl index_card ex (readable_prefix elems).
Proof.
  revert ex. induction elems as [|[c|] l IH]; intros ex; simpl; auto.
Qed.

Lemma load_entry_readable ex entry :
  load_entry ex entry = foldl index_card ex (readable_cards entry).
Proof.
  unfold load_entry, readable_cards.
  destruct (endswith entry.1 ".json"); simpl; [|done].
  destruct entry.2; [apply index_elements_prefix|done].
Qed.

Lemma foldl_load_entry ex entries :
  foldl load_entry ex entries
  = foldl (foldl index_card) ex (readable_cards <$> entries).
Proof.
  revert ex. induction entries as [|e l IH]; intros ex; [done|].
  simpl. by rewrite load_entry_readable, IH.
Qed.

Lemma readable_prefix_all (cards : list Card) :
  readable_prefix (Some <$> cards) = cards.
Proof.
  induction cards as [|c l IH]; [done|].
  rewrite fmap_cons. cbn [readable_prefix]. by rewrite IH.
Qed.

Lemma rev_app_app s t u :
  String.rev_app (s +:+ t) u = String.rev_app t (String.rev_app s u).
Proof.
  revert u. induction s as [|c s IH]; intros u; [done|].
  rewrite string_app_cons. simpl. by rewrite IH.
Qed.

Lemma rev_app_acc s u : String.rev_app s u = String.rev s +:+ u.
Proof.
  unfold String.rev. revert u. induction s as [|c s IH]; intros u; [done|].
  simpl. rewrite IH, (IH (String c "")). by rewrite string_app_assoc.
Qed.

Lemma prefix_app p s : String.prefix p (p +:+ s) = true.
Proof.
  induction p as [|c p IH]; [by destruct s|].
  rewrite string_app_cons. simpl. by destruct (ascii_dec c c).
Qed.

Lemma endswith_app s p : endswith (s +:+ p) p = true.
Proof.
  unfold endswith.
  change (String.rev (s +:+ p)) with (String.rev_app (s +:+ p) "").
  rewrite rev_app_app, (rev_app_acc p). apply prefix_app.
Qed.

Lemma set_filename_json s : endswith (set_filename s) ".json" = true.
Proof. apply endswith_app. Qed.
End directory.

(** The index of a directory is the index of the card arrays of its .json
    entries that can be read, each cut at its first element that is not an
    object. *)
Theorem directory_index (entries : list (string * option (list (option Card)))) :
  load_existing_cards_dir (Some entries)
  = load_existing_cards (readable_cards <$> entries).
Proof. apply foldl_load_entry. Qed.

Section written.
Implicit Types (W : list (string * SetData))
  (d : gmap string (option (list (option Card)))).

Lemma foldl_write_lookup_None W d k :
  d !! k = None → k ∉ W.*1 →
  foldl (λ d f, <[f.1 := Some (Some <$> sd_cards f.2)]> d) d W !! k = None.
Proof.
  revert d. induction W as [|f W IH]; intros d Hd Hk; [done|]. simpl.
  rewrite fmap_cons, not_elem_of_cons in Hk. destruct Hk as [Hk1 Hk2].
  apply IH; [|done]. by rewrite lookup_insert_ne.
Qed.

Lemma foldl_write_to_list W :
  NoDup W.*1 →
  map_to_list (foldl (λ d f, <[f.1 := Some (Some <$> sd_cards f.2)]> d) ∅ W)
  ≡ₚ file_entry <$> W.
Proof.
  induction W as [|f W IH] using rev_ind; intros HW.
  { simpl. by rewrite map_to_list_empty. }
  rewrite fmap_app, NoDup_app in HW. destruct HW as (HW & Hf & _).
  rewrite foldl_app. simpl. rewrite map_to_list_insert.
  - rewrite IH by done. rewrite fmap_app. simpl.
    by rewrite <-Permutation_cons_append.
  - apply foldl_write_lookup_None; [done|]. intros Hin.
    apply (Hf _ Hin). apply list_elem_of_here.
Qed.
End written.

(** After a run into an empty directory whose set files have distinct names,
    none of them that of the migration map, the cards read back from the
    directory, listed in any order, are the cards written. *)
Theorem written_files_read_back existing (rs : list RawCard) (run : Run)
    (entries : list (string * option (list (option Card)))) :
  download_and_convert existing rs = Some run →
  NoDup (run_files run).*1 →
  "migration_map.json" ∉ (run_files run).*1 →
  entries ≡ₚ map_to_list (written_directory ∅ run) →
  concat (readable_cards <$> entries) ≡ₚ new_cards_of_run run.
Proof.
  intros Hrun Hnodup Hmig ->. unfold written_directory.
  rewrite map_to_list_insert
    by (apply foldl_write_lookup_None; [done|done]).
  rewrite foldl_write_to_list by done.
  rewrite fmap_cons. simpl.
  unfold new_cards_of_run, all_new_cards_of.
  assert (Forall (λ f, endswith f.1 ".json" = true) (run_files run)) as Hjson.
  { revert Hrun. unfold download_and_convert. destruct rs as [|r0 rs]; [done|].
    destruct (group_cards (r0 :: rs)) as [m n]. intros [= <-]. simpl.
    apply Forall_forall. intros f (s & cards & _ & ->)%elem_of_set_files.
    apply set_filename_json. }
  clear -Hjson. induction Hjson as [|f W Hf _ IH]; [done|].
  rewrite fmap_cons, bind_cons. simpl.
  unfold readable_cards at 1. simpl. rewrite Hf, readable_prefix_all.
  by rewrite IH.
Qed.

(** The card count of a set file is the number of distinct ids among the
    cards of the set. *)
Theorem distinct_ids_counted (set_name : string) (cards : list Card) :
  sd_cardCount (write_set set_name cards).2
  = size (list_to_set (c_id <$> cards) : gset string).
Proof.
  simpl. rewrite sort_cards_Permutation.
  assert (list_to_set (c_id <$> cards) =@{gset string}
          list_to_set (c_id <$> dedup cards)) as ->.
  { apply set_eq. intros i. rewrite !elem_of_list_to_set, !list_elem_of_fmap.
    split.
    - intros (c & -> & Hc). destruct (dedup_keeps_id _ _ Hc) as (c0 & ? & ? & _).
      eauto.
    - intros (c & -> & Hc%elem_of_dedup). eauto. }
  rewrite size_list_to_set, length_fmap; [done|].
  rewrite dedup_unfold. apply dedup_from_NoDup.
Qed.

(** Every mapping of a run links a card of the snapshot to a written card
    that shares its unique id, its name and set key, or its number and
    set. *)
Theorem mapping_links_old_to_new existing (rs : list RawCard) (run : Run)
    (k : string) (e : MigrationEntry) :
  download_and_convert existing rs = Some run →
  run_migration run !! k = Some e →
  ∃ o c, o ∈ concat existing ∧ c ∈ new_cards_of_run run
    ∧ c_id o = k ∧ k ≠ "" ∧ m_old_id e = k ∧ m_new_id e = c_id c
    ∧ (c_uniqueId o = c_uniqueId c
       ∨ name_key (c_name o) (c_setName o) = name_key (c_name c) (c_setName c)
       ∨ (c_cardNumber o = c_cardNumber c ∧ c_setName o = c_setName c)).
Proof.
  unfold download_and_convert, new_cards_of_run. destruct rs as [|r0 rs]; [done|].
  destruct (group_cards (r0 :: rs)) as [m n]. intros [= <-]. simpl.
  intros (Hk & Hold & c & o & Hc & Ho & Hid & Hnew & _)%entry_provenance.
  exists o, c. rewrite find_old_cascade in Ho.
  assert (o ∈ concat existing ∧
    (c_uniqueId o = c_uniqueId c
     ∨ name_key (c_name o) (c_setName o) = name_key (c_name c) (c_setName c)
     ∨ (c_cardNumber o = c_cardNumber c ∧ c_setName o = c_setName c)))
    as [? ?]; [|by split_and!].
  destruct (uid_lookup _ c) as [o1|] eqn:H1.
  { injection Ho as ->. apply uid_match_sound in H1 as (? & _ & ?). auto. }
  destruct (name_lookup _ c) as [o2|] eqn:H2.
  { injection Ho as ->. unfold name_lookup in H2.
    apply index_provenance in H2 as (? & _ & Hkey). split; [done|].
    right. left.
    destruct Hkey as [(v & _ & _ & Hv)|[[_ Hv]|(n' & _ & _ & _ & Hv)]].
    - by apply eq_sym, uid_key_ne_name_key in Hv.
    - done.
    - by apply name_key_ne_num_key in Hv. }
  apply number_match_sound in Ho as (? & _ & ? & ?). auto.
Qed.

(** An entry that is not a .json file, or that cannot be read, leaves the
    index as it is without it. *)
Theorem unreadable_entry_ignored
    (es1 es2 : list (string * option (list (option Card))))
    (name : string) (data : option (list (option Card))) :
  endswith name ".json" = false ∨ data = None →
  load_existing_cards_dir (Some (es1 ++ (name, data) :: es2))
  = load_existing_cards_dir (Some (es1 ++ es2)).
Proof.
  intros Hbad. rewrite !directory_index, !fmap_app, fmap_cons.
  assert (readable_cards (name, data) = []) as ->.
  { unfold readable_cards. simpl. destruct Hbad as [-> | ->]; [done|].
    by destruct (endswith name ".json"). }
  unfold load_existing_cards. by rewrite !foldl_app.
Qed.

(** The elements that follow an element that is not an object are not
    indexed; those before it are. *)
Theorem malformed_element_cuts_file
    (es1 es2 : list (string * option (list (option Card))))
    (name : string) (good : list Card) (rest : list (option Card)) :
  load_existing_cards_dir
    (Some (es1 ++ (name, Some ((Some <$> good) ++ None :: rest)) :: es2))
  = load_existing_cards_dir (Some (es1 ++ (name, Some (Some <$> good)) :: es2)).
Proof.
  rewrite !directory_index, !fmap_app, !fmap_cons. do 3 f_equal.
  unfold readable_cards. simpl. destruct (endswith name ".json"); [|done].
  induction good as [|c l IH]; [done|]. rewrite !fmap_cons. simpl. by rewrite IH.
Qed.

(** ** The properties at sample inputs *)

Lemma index_provenance_witness :
  load_existing_cards sample_snapshot !! uid_key "TFC-001" = Some sample_old_a
  ∧ sample_old_a ∈ concat sample_snapshot ∧ c_name sample_old_a ≠ ""
  ∧ own_key (uid_key "TFC-001") sample_old_a.
Proof.
  assert (load_existing_cards sample_snapshot !! uid_key "TFC-001"
          = Some sample_old_a) as H by (vm_compute; reflexivity).
  split; [done|]. apply (index_provenance _ _ _ H).
Defined.

Lemma uid_match_sound_witness :
  let new := convert_card_to_app_format
               (raw_card "Elsa" "" "The First Chapter" "1" "001" "Rare") in
  uid_lookup (load_existing_cards sample_snapshot) new = Some sample_old_a
  ∧ sample_old_a ∈ concat sample_snapshot ∧ c_name sample_old_a ≠ ""
  ∧ c_uniqueId sample_old_a = c_uniqueId new.
Proof.
  intros new.
  assert (uid_lookup (load_existing_cards sample_snapshot) new
          = Some sample_old_a) as H by (vm_compute; reflexivity).
  split; [done|]. apply (uid_match_sound _ _ _ H).
Defined.

Lemma number_match_sound_witness :
  let new := convert_card_to_app_format
               (raw_card "Anna" "Snow Queen" "The First Chapter" "1" "2" "Rare") in
  num_lookup (load_existing_cards sample_snapshot) new = Some sample_old_c
  ∧ sample_old_c ∈ concat sample_snapshot ∧ c_name sample_old_c ≠ ""
  ∧ c_cardNumber sample_old_c = c_cardNumber new
  ∧ c_setName sample_old_c = c_setName new.
Proof.
  intros new.
  assert (num_lookup (load_existing_cards sample_snapshot) new
          = Some sample_old_c) as H by (vm_compute; reflexivity).
  split; [done|]. apply (number_match_sound _ _ _ H).
Defined.

Lemma name_match_sound_witness :
  let new := convert_card_to_app_format
               (raw_card "Elsa" "" "The First Chapter" "1" "001" "Rare") in
  has_char "|" (c_name new) = false ∧ has_char "|" (c_name sample_old_b) = false
  ∧ name_lookup (load_existing_cards sample_snapshot) new = Some sample_old_b
  ∧ sample_old_b ∈ concat sample_snapshot
  ∧ c_name sample_old_b = c_name new ∧ c_setName sample_old_b = c_setName new.
Proof.
  intros new.
  assert (has_char "|" (c_name new) = false) as H1 by (vm_compute; reflexivity).
  assert (has_char "|" (c_name sample_old_b) = false) as H2
    by (vm_compute; reflexivity).
  assert (name_lookup (load_existing_cards sample_snapshot) new
          = Some sample_old_b) as H3 by (vm_compute; reflexivity).
  do 3 (split; [done|]). apply (name_match_sound _ _ _ H1 H2 H3).
Defined.

Lemma uid_last_wins_witness :
  let twice := [[sample_old_a]; [old_card "TFC_1_Elsa_new" "Elsa" "The First Chapter"
                                   (Some 1) (Some "TFC-001")]] in
  load_existing_cards twice !! uid_key "TFC-001"
  = last (filter (λ c, c_name c ≠ "" ∧ c_uniqueId c = Some "TFC-001")
            (concat twice)).
Proof. intros twice. apply (uid_last_wins twice "TFC-001"). discriminate. Defined.

Lemma entry_provenance_witness :
  let old := load_existing_cards sample_snapshot in
  let cs := convert_card_to_app_format <$> sample_raw in
  ∃ e, build_migration_map old cs !! "TFC_1_Elsa_old" = Some e
    ∧ m_old_id e = "TFC_1_Elsa_old"
    ∧ ∃ c o, c ∈ cs ∧ (find_old old c).1 = Some o ∧ c_id o = "TFC_1_Elsa_old"
           ∧ m_new_id e = c_id c ∧ m_new_unique_id e = c_uniqueId c
           ∧ m_name e = c_name c ∧ m_set e = c_setName c
           ∧ m_variant e = c_variant c.
Proof.
  intros old cs.
  destruct (build_migration_map old cs !! "TFC_1_Elsa_old") as [e|] eqn:He;
    [|by vm_compute in He].
  exists e. split; [done|].
  apply (proj2 (entry_provenance old cs _ e He)).
Defined.

Lemma first_run_empty_map_witness :
  build_migration_map (load_existing_cards [[]; []])
    (convert_card_to_app_format <$> sample_raw) = ∅.
Proof. apply (first_run_empty_map [[]; []]). reflexivity. Defined.

Lemma every_record_represented_witness :
  let r := raw_card "Anna" "" "The First Chapter" "1" "2" "Enchanted" in
  ∃ f c, f ∈ set_files (group_cards sample_raw).1
       ∧ sd_setName f.2 = rs_name (r_set r)
       ∧ c ∈ sd_cards f.2
       ∧ c_id c = c_id (convert_card_to_app_format r)
       ∧ head (filter (λ x, c_id x = c_id c)
                 (cards_of_set (rs_name (r_set r)) sample_raw)) = Some c.
Proof.
  intros r. apply (every_record_represented sample_raw r).
  - unfold sample_raw. apply list_elem_of_further, list_elem_of_here.
  - discriminate.
Defined.

Lemma summary_figures_witness :
  ∃ run, download_and_convert sample_snapshot sample_raw = Some run
    ∧ let s := run_summary run in
      total_cards s = sum_list ((λ f, sd_cardCount f.2) <$> run_files run)
      ∧ sets_created s = length (run_files run)
      ∧ (migration_mappings s ≤ total_cards s)%nat
      ∧ (missing_images s ≤ total_cards s)%nat
      ∧ migration_mappings s = size (run_migration run).
Proof.
  destruct (download_and_convert sample_snapshot sample_raw) as [run|] eqn:Hrun;
    [|by vm_compute in Hrun].
  exists run. split; [done|]. apply (summary_figures _ _ _ Hrun).
Defined.

Lemma variant_breakdown_witness :
  ∃ run, download_and_convert sample_snapshot sample_raw = Some run
    ∧ variant_counts (run_summary run) !! "Enchanted"
      = match length (filter (λ c, c_variant c = "Enchanted")
                        (new_cards_of_run run)) with
        | O => None
        | n => Some n
        end.
Proof.
  destruct (download_and_convert sample_snapshot sample_raw) as [run|] eqn:Hrun;
    [|by vm_compute in Hrun].
  exists run. split; [done|]. apply (variant_breakdown _ _ _ _ Hrun).
Defined.

Lemma set_counts_before_dedup_witness :
  ∃ run, download_and_convert sample_snapshot (sample_raw ++ sample_raw) = Some run
    ∧ run_set_counts run !! "The First Chapter" = Some 4%nat
    ∧ Forall (λ f, ∃ n, run_set_counts run !! sd_setName f.2 = Some n
                       ∧ (sd_cardCount f.2 ≤ n)%nat) (run_files run).
Proof.
  destruct (download_and_convert sample_snapshot (sample_raw ++ sample_raw))
    as [run|] eqn:Hrun; [|by vm_compute in Hrun].
  exists run. split; [done|].
  destruct (set_counts_before_dedup _ _ _ Hrun) as [Hcount Hfiles].
  split; [|done]. rewrite Hcount. reflexivity.
Defined.

Lemma mapping_links_old_to_new_witness :
  ∃ run e, download_and_convert sample_snapshot sample_raw = Some run
    ∧ run_migration run !! "TFC_1_Elsa_old" = Some e
    ∧ ∃ o c, o ∈ concat sample_snapshot ∧ c ∈ new_cards_of_run run
        ∧ c_id o = "TFC_1_Elsa_old" ∧ "TFC_1_Elsa_old" ≠ ""
        ∧ m_old_id e = "TFC_1_Elsa_old" ∧ m_new_id e = c_id c
        ∧ (c_uniqueId o = c_uniqueId c
           ∨ name_key (c_name o) (c_setName o) = name_key (c_name c) (c_setName c)
           ∨ (c_cardNumber o = c_cardNumber c ∧ c_setName o = c_setName c)).
Proof.
  destruct (download_and_convert sample_snapshot sample_raw) as [run|] eqn:Hrun;
    [|by vm_compute in Hrun].
  destruct (run_migration run !! "TFC_1_Elsa_old") as [e|] eqn:He.
  2:{ vm_compute in Hrun. injection Hrun as <-. by vm_compute in He. }
  exists run, e. do 2 (split; [done|]).
  apply (mapping_links_old_to_new _ _ _ _ _ Hrun He).
Defined.

Lemma unique_id_names_one_number_witness :
  let r1 := raw_card "Elsa" "" "The First Chapter" "1" "007" "Rare" in
  let r2 := raw_card "Anna" "" "The First Chapter" "1" " 7" "Enchanted" in
  c_uniqueId (convert_card_to_app_format r1)
    = c_uniqueId (convert_card_to_app_format r2)
  ∧ c_cardNumber (convert_card_to_app_format r1)
    = c_cardNumber (convert_card_to_app_format r2).
Proof.
  intros r1 r2.
  assert (c_uniqueId (convert_card_to_app_format r1)
          = c_uniqueId (convert_card_to_app_format r2)) as H
    by (vm_compute; reflexivity).
  split; [done|].
  apply (unique_id_names_one_number r1 r2); [vm_compute; reflexivity| |done].
  vm_compute. eauto.
Defined.

Lemma rarity_queries_add_nothing_witness :
  run_files <$> fetch_and_convert sample_fetch_sets sample_fetch_cards [] O
  = run_files <$> download_and_convert []
      [raw_card "Elsa" "" "Fabled" "9" "1" "Rare"; sample_epic].
Proof.
  assert (sample_fetch_sets O
          = (Some [{| rs_name := "Fabled"; rs_code := "9" |}], 1%nat)) as Hsets
    by reflexivity.
  apply (rarity_queries_add_nothing sample_fetch_sets sample_fetch_cards
           [] O _ _ Hsets).
  apply Forall_forall. apply (bool_decide_unpack _). vm_compute. reflexivity.
Defined.

Lemma written_files_read_back_witness :
  ∃ run, download_and_convert [] sample_raw = Some run
    ∧ concat (readable_cards <$> map_to_list (written_directory ∅ run))
      ≡ₚ new_cards_of_run run.
Proof.
  destruct (download_and_convert [] sample_raw) as [run|] eqn:Hrun;
    [|by vm_compute in Hrun].
  exists run. split; [done|].
  apply (written_files_read_back [] sample_raw run _ Hrun); [..|done];
    vm_compute in Hrun; injection Hrun as <-.
  - apply (bool_decide_unpack _). vm_compute. reflexivity.
  - apply (bool_decide_unpack _). vm_compute. reflexivity.
Defined.

Lemma unreadable_entry_ignored_witness :
  load_existing_cards_dir
    (Some ([("the_first_chapter.json", Some [Some sample_old_a])]
           ++ ("notes.txt", Some [Some sample_old_b]) :: []))
  = load_existing_cards_dir
      (Some ([("the_first_chapter.json", Some [Some sample_old_a])] ++ [])).
Proof. apply unreadable_entry_ignored. left. reflexivity. Defined.

Lemma unique_id_number_reads_back_witness :
  let card := raw_card "Elsa" "" "The First Chapter" "1" " 7" "Rare" in
  c_uniqueId (convert_card_to_app_format card) = Some "TFC-007"
  ∧ ∃ t, "TFC-007" = "TFC" +:+ "-" +:+ t
       ∧ Py.int t = c_cardNumber (convert_card_to_app_format card)
       ∧ (3 ≤ String.length t)%nat.
Proof.
  intros card.
  assert (c_uniqueId (convert_card_to_app_format card) = Some "TFC-007") as H
    by (vm_compute; reflexivity).
  split; [done|]. apply (unique_id_number_reads_back card "TFC-007" H).
Defined.

(** ** Local images and labels *)

(** A card is counted as needing a local image exactly when its record
    gave no image address, or when the address taken is itself a
    placeholder. *)
Theorem needs_local_image_cases (card : RawCard) :
  let u := r_image_uris card in
  needs_local_image (convert_card_to_app_format card)
  = match head (filter (λ s, s ≠ "")
                  [digital_large u; digital_normal u; digital_small u;
                   flat_large u; flat_normal u; flat_small u]) with
    | Some url => Py.startswith url "local://"
    | None => true
    end.
Proof.
  intros u. unfold needs_local_image. rewrite image_cascade. fold u.
  destruct (head _) as [url|] eqn:Hhead.
  - assert (url ≠ "") as Hurl.
    { apply head_Some_elem_of in Hhead.
      by apply list_elem_of_filter in Hhead as [? _]. }
    by destruct url.
  - destruct (c_uniqueId _) as [uid|]; [|done].
    unfold Py.startswith. rewrite prefix_app. apply orb_true_r.
Qed.

(** The label of an entry is [uniqueId] exactly when the first strategy
    found an old card for the new card, and [name+set] otherwise. *)
Theorem label_tells_uid_hit (old : gmap string Card) (new : Card) (k : string) :
  (m_match_method (make_entry old new k) = "uniqueId"
   ↔ is_Some (uid_lookup old new))
  ∧ (m_match_method (make_entry old new k) = "name+set"
     ↔ uid_lookup old new = None).
Proof.
  simpl. destruct (uid_lookup old new) as [o|] eqn:Ho.
  - rewrite (match_method_uid _ _ _ Ho).
    split; split; intros H; try done; eauto.
  - rewrite (match_method_not_uid _ _ Ho).
    split; split; intros H; try done; by destruct H.
Qed.
